(** * NAS Mini (server.py): session, QR-claim, registration and upload layer

    A shallow embedding of the request handlers of [server.py] and of the
    library calls they rest on, followed by the properties of the
    specification that concern them.

    Conventions of the model.
    - A Python [str] is a [string] whose characters are code points below 256.
    - Clock readings are whole seconds since the epoch ([Z]); the handlers
      themselves truncate every reading with [int(...)].
    - A handler is a function from the state it touches (database, file
      system, hub) to the new state and a response; an uncaught Python
      exception is a response of its own (status 500).
    - Paths follow POSIX ([os.path] is [posixpath]) on Linux; symbolic
      links are not modelled. A call refuses a path of [PATH_MAX] bytes or
      more, a path component of more than [NAME_MAX] bytes and a path that
      holds NUL. Permissions, the space on the disk and the recursion limit
      of the interpreter are not modelled. *)

From Stdlib Require Import ZArith NArith Ascii String Lia.
From Stdlib.Strings Require Import Byte.
From Stdlib.Structures Require OrderedTypeEx.
From Equations Require Import Equations.
From stdpp Require Import gmap strings list sorting fin_maps.

Local Open Scope string_scope.
Local Open Scope list_scope.
Local Open Scope Z_scope.

(** ** Python strings *)

Module Str.

Definition code (c : ascii) : Z := Z.of_N (N_of_ascii c).

Definition chr (z : Z) : ascii := ascii_of_N (Z.to_N z).

(** [str.lower] on one code point below 256: the ASCII capitals and the
    Latin-1 capitals U+00C0..U+00DE (U+00D7, the multiplication sign, apart)
    move 32 places up. *)
Definition lower_char (c : ascii) : ascii :=
  let n := code c in
  if ((65 <=? n) && (n <=? 90)) || ((192 <=? n) && (n <=? 222) && negb (n =? 215))
  then chr (n + 32) else c.

Fixpoint lower (s : string) : string :=
  match s with
  | EmptyString => EmptyString
  | String c s' => String (lower_char c) (lower s')
  end.

(** [str.isspace] on one code point below 256. *)
Definition isspace (c : ascii) : bool :=
  let n := code c in
  ((9 <=? n) && (n <=? 13)) || ((28 <=? n) && (n <=? 32)) || (n =? 133) || (n =? 160).

Fixpoint lstrip (s : string) : string :=
  match s with
  | EmptyString => EmptyString
  | String c s' => if isspace c then lstrip s' else s
  end.

(** [rstrip]: a character is kept when something after it is kept or it is
    not white space. *)
Fixpoint rstrip (s : string) : string :=
  match s with
  | EmptyString => EmptyString
  | String c s' =>
      match rstrip s' with
      | EmptyString => if isspace c then EmptyString else String c EmptyString
      | r => String c r
      end
  end.

Definition strip (s : string) : string := rstrip (lstrip s).

(** [s.rfind(c)]: the index of the last occurrence of [c], or -1. [i] is the
    index of the head of [s], [last] the result so far. *)
Fixpoint rfind_from (c : ascii) (s : string) (i last : Z) : Z :=
  match s with
  | EmptyString => last
  | String d s' => rfind_from c s' (i + 1) (if Ascii.eqb c d then i else last)
  end.

Definition rfind (c : ascii) (s : string) : Z := rfind_from c s 0 (-1).

(** The slices [s[:i]] and [s[i:]] for [0 <= i]. *)
Fixpoint take (i : nat) (s : string) : string :=
  match i, s with
  | S i', String c s' => String c (take i' s')
  | _, _ => EmptyString
  end.

Fixpoint drop (i : nat) (s : string) : string :=
  match i, s with
  | S i', String _ s' => drop i' s'
  | _, _ => s
  end.

Definition slice_to (i : Z) (s : string) : string := take (Z.to_nat i) s.
Definition slice_from (i : Z) (s : string) : string := drop (Z.to_nat i) s.
Definition slice (i j : Z) (s : string) : string := slice_to (j - i) (slice_from i s).

Fixpoint startswith (p s : string) : bool :=
  match p with
  | EmptyString => true
  | String a p' =>
      match s with
      | EmptyString => false
      | String b s' => Ascii.eqb a b && startswith p' s'
      end
  end.

Fixpoint endswith_char (c : ascii) (s : string) : bool :=
  match s with
  | EmptyString => false
  | String d EmptyString => Ascii.eqb c d
  | String _ s' => endswith_char c s'
  end.

Fixpoint contains_char (c : ascii) (s : string) : bool :=
  match s with
  | EmptyString => false
  | String d s' => Ascii.eqb c d || contains_char c s'
  end.

(** [s.split(c)]: the pieces of [s] between the occurrences of [c]; never
    empty, and one piece more than there are occurrences. *)
Fixpoint split (c : ascii) (s : string) : list string :=
  match s with
  | EmptyString => [EmptyString]
  | String d s' =>
      if Ascii.eqb c d then EmptyString :: split c s'
      else match split c s' with
           | [] => [String d EmptyString]
           | h :: t => String d h :: t
           end
  end.

(** Some character of [s] is not [c]. *)
Fixpoint some_other_char (c : ascii) (s : string) : bool :=
  match s with
  | EmptyString => false
  | String d s' => negb (Ascii.eqb c d) || some_other_char c s'
  end.

(** Python's truth value of a string. *)
Definition truthy (s : string) : bool :=
  match s with EmptyString => false | _ => true end.

End Str.

(** ** [os.path] (posixpath) *)

Module Path.

Definition sep : ascii := "/"%char.
Definition extsep : ascii := "."%char.

(** [posixpath.splitext]: the extension starts at the last dot, when that dot
    comes after the last separator and some character between the separator
    and it is not a dot. *)
Definition splitext (p : string) : string * string :=
  let sepIndex := Str.rfind sep p in
  let dotIndex := Str.rfind extsep p in
  if sepIndex <? dotIndex then
    if Str.some_other_char extsep (Str.slice (sepIndex + 1) dotIndex p)
    then (Str.slice_to dotIndex p, Str.slice_from dotIndex p)
    else (p, EmptyString)
  else (p, EmptyString).

(** [posixpath.join(a, b)]. *)
Definition join (a b : string) : string :=
  if Str.startswith "/" b then b
  else if negb (Str.truthy a) || Str.endswith_char sep a then a +:+ b
  else a +:+ "/" +:+ b.

End Path.

(** ** The file system the handlers see

    A node is named by the list of its components from the root. The root is
    a directory that needs no entry. Each system call resolves its path
    string again, component by component, from the root or from the working
    directory. *)

Module Fs.

Inductive node :=
| Dir
| File (content : list byte) (mtime : Z).

Record t := mk {
  cwd : list string;
  nodes : gmap (list string) node
}.

Definition node_at (fs : t) (p : list string) : option node :=
  match p with
  | [] => Some Dir
  | _ => nodes fs !! p
  end.

Definition isdir_at (fs : t) (p : list string) : bool :=
  match node_at fs p with Some Dir => true | _ => false end.

Definition isfile_at (fs : t) (p : list string) : bool :=
  match node_at fs p with Some (File _ _) => true | _ => false end.

(** The directory above; the root is its own parent. *)
Definition parent (p : list string) : list string := removelast p.

(** The limits the system calls put on a name (Linux): a whole path has
    fewer than [PATH_MAX] bytes and a component at most [NAME_MAX] bytes in
    the file system encoding, or the call fails with [ENAMETOOLONG]; and no
    path holds the NUL character, for which Python raises [ValueError]
    before it makes the call. *)
Definition NAME_MAX : N := 255.
Definition PATH_MAX : N := 4096.
Definition NUL : ascii := Ascii.zero.

(** The length of [os.fsencode(s)] (UTF-8): one byte for a code point below
    128, two for the others below 256. *)
Fixpoint nbytes (s : string) : N :=
  match s with
  | EmptyString => 0%N
  | String c s' => ((if (Str.code c <? 128)%Z then 1 else 2) + nbytes s')%N
  end.

Definition name_ok (c : string) : bool :=
  negb (Str.contains_char NUL c) && (nbytes c <=? NAME_MAX)%N.

Definition path_fits (p : string) : bool := (nbytes p <? PATH_MAX)%N.

(** What one component of a path string asks for; [Invalid] is a name that
    no call accepts. *)
Inductive step := Stay | Up | Down (name : string) | Invalid.

Definition classify (c : string) : step :=
  if String.eqb c "" then Stay
  else if String.eqb c "." then Stay
  else if String.eqb c ".." then Up
  else if name_ok c then Down c
  else Invalid.

Definition components (p : string) : list string := Str.split Path.sep p.

Definition start (fs : t) (p : string) : list string :=
  if Str.startswith "/" p then [] else cwd fs.

(** Follow [comps] from [cur]; every directory named on the way must exist,
    under a name the system accepts. *)
Fixpoint walk (fs : t) (cur : list string) (comps : list string) : option (list string) :=
  match comps with
  | [] => Some cur
  | c :: cs =>
      match classify c with
      | Stay => walk fs cur cs
      | Up => walk fs (parent cur) cs
      | Down name =>
          if isdir_at fs (cur ++ [name]) then walk fs (cur ++ [name]) cs else None
      | Invalid => None
      end
  end.

(** The node a path string names, when its directory part resolves. The
    empty path names nothing, and neither does a path that does not fit. *)
Definition locate (fs : t) (p : string) : option (list string) :=
  if negb (Str.truthy p) then None
  else if negb (path_fits p) then None
  else
    let cs := components p in
    match walk fs (start fs p) (removelast cs) with
    | None => None
    | Some d =>
        match classify (List.last cs "") with
        | Stay => if isdir_at fs d then Some d else None
        | Up => Some (parent d)
        | Down name => Some (d ++ [name])
        | Invalid => None
        end
    end.

Definition add_dir (fs : t) (p : list string) : t :=
  mk (cwd fs) (<[p := Dir]> (nodes fs)).

(** [os.makedirs(p, exist_ok=True)] creates, in order, every directory that
    the components of [p] name and that is missing; it raises when one of
    them is a regular file or a name the system does not accept, and what
    it created before stays. The result is the file system as the call
    leaves it and the directory reached ([None] when it raised). For a path
    that does not fit the call raises; the directories that the library
    function may have made for a leading part of such a path before it
    raised are left out. *)
Fixpoint makedirs_from (fs : t) (cur : list string) (comps : list string)
  : t * option (list string) :=
  match comps with
  | [] => (fs, Some cur)
  | c :: cs =>
      match classify c with
      | Stay => makedirs_from fs cur cs
      | Up => makedirs_from fs (parent cur) cs
      | Down name =>
          match node_at fs (cur ++ [name]) with
          | Some (File _ _) => (fs, None)
          | Some Dir => makedirs_from fs (cur ++ [name]) cs
          | None => makedirs_from (add_dir fs (cur ++ [name])) (cur ++ [name]) cs
          end
      | Invalid => (fs, None)
      end
  end.

Definition makedirs (fs : t) (p : string) : t * option (list string) :=
  if negb (Str.truthy p) then (fs, None)
  else if negb (path_fits p) then (fs, None)
  else makedirs_from fs (start fs p) (components p).

(** [open(p, "wb")]: the file is created, or emptied when it exists; the
    call raises when the directory part does not resolve, when the name of
    the file is one the system does not accept, or when [p] names a
    directory. The handle is the node's name. *)
Definition open_wb (fs : t) (p : string) (now : Z) : option (t * list string) :=
  match locate fs p with
  | None => None
  | Some q =>
      match node_at fs q with
      | Some Dir => None
      | _ => Some (mk (cwd fs) (<[q := File [] now]> (nodes fs)), q)
      end
  end.

(** [f.write(chunk)] on a handle opened by [open_wb]. *)
Definition write (fs : t) (q : list string) (chunk : list byte) (now : Z) : t :=
  mk (cwd fs)
     (alter (fun n => match n with
                      | File c _ => File (c ++ chunk) now
                      | Dir => Dir
                      end) q (nodes fs)).

(** The name of [q] inside the directory [d], when [q] is directly in it. *)
Fixpoint child_name (d q : list string) : option string :=
  match d, q with
  | [], [n] => Some n
  | x :: d', y :: q' => if String.eqb x y then child_name d' q' else None
  | _, _ => None
  end.

(** [os.listdir(p)], in no particular order. *)
Definition listdir (fs : t) (p : string) : option (list string) :=
  match locate fs p with
  | None => None
  | Some d =>
      if isdir_at fs d
      then Some (omap (fun kv => child_name d (fst kv)) (map_to_list (nodes fs)))
      else None
  end.

(** [os.path.isfile(p)] never raises. *)
Definition isfile (fs : t) (p : string) : bool :=
  match locate fs p with
  | Some q => isfile_at fs q
  | None => false
  end.

(** [os.stat(p)] of a regular file: [(st_size, int(st_mtime))]. *)
Definition stat (fs : t) (p : string) : option (Z * Z) :=
  match locate fs p with
  | Some q =>
      match node_at fs q with
      | Some (File c m) => Some (Z.of_nat (length c), m)
      | _ => None
      end
  | None => None
  end.

(** The content of the regular file at node [q]. *)
Definition content_at (fs : t) (q : list string) : option (list byte) :=
  match node_at fs q with
  | Some (File c _) => Some c
  | _ => None
  end.

(** [q] lies inside the directory [d] (at any depth). *)
Definition inside (d q : list string) : Prop :=
  exists rest, rest <> [] /\ q = d ++ rest.

(** The two file systems have the same directories. *)
Definition same_dirs (fs fs' : t) : Prop :=
  cwd fs' = cwd fs /\ forall p, isdir_at fs' p = isdir_at fs p.

(** [fs'] is [fs] with directories added at names that were free. *)
Definition grows (fs fs' : t) : Prop :=
  cwd fs' = cwd fs
  /\ forall p, nodes fs' !! p = nodes fs !! p
               \/ (nodes fs !! p = None /\ nodes fs' !! p = Some Dir).

(** Every node lies in a directory, and so does the process. *)
Definition wf (fs : t) : Prop :=
  isdir_at fs (cwd fs) = true
  /\ forall p n, is_Some (nodes fs !! (p ++ [n])) -> isdir_at fs p = true.

End Fs.

(** ** Configuration *)

Definition ALLOWED_EXTS : list string := [".zip"; ".rar"; ".apk"].
Definition MAX_UPLOAD_CHUNK : N := 32 * 1024 * 1024.
Definition JWT_EXP_MIN : Z := 24 * 60.
Definition QR_EXP_SEC : Z := 120.
Definition DATA_ROOT : string := "data".

(** ** Utilities *)

(** [user_dir(username)]: the path string of the user's directory, which is
    created on the way. [None] stands for the [OSError] of [os.makedirs]. *)
Definition user_dir (fs : Fs.t) (username : string) : Fs.t * option string :=
  let p := Path.join DATA_ROOT username in
  match Fs.makedirs fs p with
  | (fs', Some _) => (fs', Some p)
  | (fs', None) => (fs', None)
  end.

Record file_entry := mk_entry {
  fe_name : string;
  fe_size : Z;
  fe_mtime : Z
}.

(** Python compares strings code point by code point. *)
Definition str_le (a b : string) : Prop := Is_true (String.leb a b).

(** The body of the loop of [list_user_files]. *)
Definition list_entry (fs : Fs.t) (p name : string) : option file_entry :=
  let full := Path.join p name in
  if Fs.isfile fs full then
    match Fs.stat fs full with
    | Some (size, mtime) => Some (mk_entry name size mtime)
    | None => None
    end
  else None.

(** [list_user_files(username)]. *)
Definition list_user_files (fs : Fs.t) (username : string)
  : Fs.t * option (list file_entry) :=
  match user_dir fs username with
  | (fs', None) => (fs', None)
  | (fs', Some p) =>
      match Fs.listdir fs' p with
      | None => (fs', None)
      | Some names => (fs', Some (omap (list_entry fs' p) (merge_sort str_le names)))
      end
  end.

(** ** What the server takes from its libraries and its environment *)

Class Platform := {
  (** [NAS_MINI_SECRET], or the built-in default. *)
  SECRET_KEY : string;
  (** The HS256 signature that [jose] computes over the claims
      [{sub, exp}] under a key. *)
  hs256 : string -> string -> Z -> string;
  (** [pbkdf2_sha256.hash(password)], given the salt it drew. *)
  pbkdf2_sha256_hash : string -> string -> string;
  (** The local time zone of the server: how many seconds local time is
      ahead of UTC at the instant [u], as [time.localtime(u)] has it. *)
  utc_offset : Z -> Z
}.

(** ** Session tokens *)

(** A token as it travels in the [session] cookie: the two claims and the
    signature. The base64 and JSON wrapping is left out. *)
Record jwt := mk_jwt {
  jwt_sub : string;
  jwt_exp : Z;
  jwt_sig : string
}.

Section Auth.
Context `{Platform}.

(** [time.localtime(u)], counted in seconds as if it were UTC. *)
Definition local (u : Z) : Z := u + utc_offset u.

Definition max_fold_seconds : Z := 24 * 3600.

(** [datetime.timestamp()] of a naive datetime with [fold = 0]: the
    wall-clock value is read as local time, that is, [datetime._mktime]
    solves [t = local(u)] for [u]. [t] is the naive value counted in seconds
    as if it were UTC. It tries the offset [a] that holds at [t] and, where
    that one fails or an earlier solution may exist, the offset [b] found a
    day earlier or at the first try; in a gap of local time it takes the
    later of the two tries. *)
Definition naive_timestamp (t : Z) : Z :=
  let a := local t - t in
  let u1 := t - a in
  let t1 := local u1 in
  let b := if t1 =? t
           then local (u1 - max_fold_seconds) - (u1 - max_fold_seconds)
           else t1 - u1 in
  if (t1 =? t) && (a =? b) then u1
  else
    let u2 := t - b in
    let t2 := local u2 in
    if t2 =? t then u2
    else if t1 =? t then u1
    else Z.max u1 u2.

(** [create_jwt(username)], called when the clock reads [now]:
    [datetime.utcnow()] is the naive datetime whose wall-clock value is
    [now]. *)
Definition create_jwt (now : Z) (username : string) : jwt :=
  let exp := now + JWT_EXP_MIN * 60 in
  let payload_exp := naive_timestamp exp in
  mk_jwt username payload_exp (hs256 SECRET_KEY username payload_exp).

Inductive jwt_result :=
| Claims (sub : string) (exp : Z)
| JWTError.

(** [jwt.decode(token, key)] of [jose]: the signature is recomputed and
    compared, then [exp < now] raises [ExpiredSignatureError], a [JWTError].
    [now] is [timegm(datetime.utcnow().utctimetuple())], the true epoch. *)
Definition jwt_decode (now : Z) (token : jwt) (key : string) : jwt_result :=
  if negb (String.eqb (jwt_sig token) (hs256 key (jwt_sub token) (jwt_exp token)))
  then JWTError
  else if jwt_exp token <? now then JWTError
  else Claims (jwt_sub token) (jwt_exp token).

(** [verify_jwt(token)]. *)
Definition verify_jwt (now : Z) (token : jwt) : option string :=
  match jwt_decode now token SECRET_KEY with
  | Claims sub _ => Some sub
  | JWTError => None
  end.

(** [require_user(request)], from the [session] cookie of the request. *)
Definition require_user (now : Z) (cookie : option jwt) : option string :=
  match cookie with
  | None => None
  | Some token => verify_jwt now token
  end.

End Auth.

(** ** The database *)

Record user_row := mk_user {
  password_hash : string;
  created_at : Z
}.

Record qr_row := mk_qr {
  qr_username : string;
  expire_at : Z
}.

(** The three tables, each keyed by its unique column. [users.id] is never
    read and is left out; [ip_quota] is created on first use, so a missing
    table and an empty one are the same. *)
Record Db := mk_db {
  users : gmap string user_row;
  qr_tokens : gmap string qr_row;
  ip_quota : gmap string Z
}.

Definition init_db : Db := mk_db ∅ ∅ ∅.

(** A [sqlite3] connection: the database as last committed, and the database
    as this connection sees it inside its open transaction. *)
Record connection := mk_conn {
  committed : Db;
  pending : Db
}.

Module Sql.

Definition db (d : Db) : connection := mk_conn d d.

Definition commit (c : connection) : connection := mk_conn (pending c) (pending c).

(** [conn.close()]: what was not committed is rolled back. *)
Definition close (c : connection) : Db := committed c.

Inductive result (A : Type) :=
| Done (a : A)
| IntegrityError.
Arguments Done {A} a.
Arguments IntegrityError {A}.

Definition bind {A B} (r : result A) (k : A -> result B) : result B :=
  match r with
  | Done a => k a
  | IntegrityError => IntegrityError
  end.

Definition on_pending (f : Db -> Db) (c : connection) : connection :=
  mk_conn (committed c) (f (pending c)).

(** [INSERT INTO users(username, password_hash, created_at)]: [username] is
    [UNIQUE]. *)
Definition insert_user (username : string) (row : user_row) (c : connection)
  : result connection :=
  match users (pending c) !! username with
  | Some _ => IntegrityError
  | None =>
      Done (on_pending (fun d => mk_db (<[username := row]> (users d))
                                       (qr_tokens d) (ip_quota d)) c)
  end.

(** [SELECT count FROM ip_quota WHERE ip=?] *)
Definition select_quota (ip : string) (c : connection) : option Z :=
  ip_quota (pending c) !! ip.

(** [UPDATE ip_quota SET count=count+1 WHERE ip=?] *)
Definition bump_quota (ip : string) (c : connection) : result connection :=
  Done (on_pending (fun d => mk_db (users d) (qr_tokens d)
                                   (alter (fun n => n + 1) ip (ip_quota d))) c).

(** [INSERT INTO ip_quota(ip, count) VALUES(?,1)]: [ip] is the primary key. *)
Definition insert_quota (ip : string) (c : connection) : result connection :=
  match ip_quota (pending c) !! ip with
  | Some _ => IntegrityError
  | None =>
      Done (on_pending (fun d => mk_db (users d) (qr_tokens d)
                                       (<[ip := 1]> (ip_quota d))) c)
  end.

(** [SELECT username, expire_at FROM qr_tokens WHERE token=?] *)
Definition select_qr (token : string) (c : connection) : option qr_row :=
  qr_tokens (pending c) !! token.

(** [DELETE FROM qr_tokens WHERE token=?] *)
Definition delete_qr (token : string) (c : connection) : connection :=
  on_pending (fun d => mk_db (users d) (delete token (qr_tokens d)) (ip_quota d)) c.

(** [INSERT OR REPLACE INTO qr_tokens(token, username, expire_at)] *)
Definition replace_qr (token : string) (row : qr_row) (c : connection) : connection :=
  on_pending (fun d => mk_db (users d) (<[token := row]> (qr_tokens d)) (ip_quota d)) c.

End Sql.

#[global] Instance sql_result_bind : MBind Sql.result :=
  fun A B k r => Sql.bind r k.

(** ** Registration *)

Inductive register_response :=
| RegMissing          (* 400, username or password missing *)
| RegQuotaExceeded    (* 403, the address has used its quota *)
| RegDuplicate        (* 409, the username exists *)
| RegOk (session : jwt)  (* 200, with the session cookie *)
| RegError.           (* 500, [os.makedirs] raised *)

(** [x or ""] for a JSON field that may be absent. *)
Definition or_empty (x : option string) : string := default "" x.

Section Register.
Context `{Platform}.

(** [api_register(request)]. [now] is the clock, [salt] what the password
    hash draws, [ip] is [request.client.host], the two options are
    [body.get("username")] and [body.get("password")]. *)
Definition api_register (now : Z) (salt : string) (ip : string)
    (body_username body_password : option string) (d : Db) (fs : Fs.t)
  : (Db * Fs.t) * register_response :=
  let username := Str.strip (or_empty body_username) in
  let password := or_empty body_password in
  if negb (Str.truthy username) || negb (Str.truthy password) then
    ((d, fs), RegMissing)
  else
    let c := Sql.db d in
    let c := Sql.commit c in                 (* CREATE TABLE IF NOT EXISTS; commit *)
    let row := Sql.select_quota ip c in
    let cnt := default 0 row in
    if 2 <=? cnt then ((Sql.close c, fs), RegQuotaExceeded)
    else
      let pw_hash := pbkdf2_sha256_hash salt password in
      match (c1 ← Sql.insert_user username (mk_user pw_hash now) c;
             c2 ← (if row is Some _ then Sql.bump_quota ip c1
                   else Sql.insert_quota ip c1);
             Sql.Done (Sql.commit c2)) with
      | Sql.IntegrityError => ((Sql.close c, fs), RegDuplicate)
      | Sql.Done c3 =>
          let d' := Sql.close c3 in
          match user_dir fs username with
          | (fs1, None) => ((d', fs1), RegError)
          | (fs1, Some p) =>
              match Fs.makedirs fs1 p with
              | (fs2, None) => ((d', fs2), RegError)
              | (fs2, Some _) => ((d', fs2), RegOk (create_jwt now username))
              end
          end
      end.

End Register.

(** ** QR login *)

Inductive claim_response :=
| ClaimInvalid               (* 400, no such token *)
| ClaimExpired               (* 400, the token is past its expiry *)
| ClaimOk (session : jwt).   (* 200, with the session cookie *)

(** The specification's [InvalidOrExpiredToken]: either 400. *)
Definition invalid_or_expired (r : claim_response) : Prop :=
  r = ClaimInvalid \/ r = ClaimExpired.

(** [new_qr_token(username)], with the token [secrets.token_urlsafe] drew. *)
Definition new_qr_token (now : Z) (token : string) (username : string) (d : Db)
  : Db * (string * Z) :=
  let expire := now + QR_EXP_SEC in
  let c := Sql.db d in
  let c := Sql.replace_qr token (mk_qr username expire) c in
  let c := Sql.commit c in
  (Sql.close c, (token, expire)).

Section Claim.
Context `{Platform}.

(** [api_qr_claim(token, response)] when the clock reads [now]. *)
Definition api_qr_claim (now : Z) (token : string) (d : Db) : Db * claim_response :=
  let c := Sql.db d in
  match Sql.select_qr token c with
  | None => (Sql.close c, ClaimInvalid)
  | Some row =>
      if expire_at row <? now then (Sql.close c, ClaimExpired)
      else
        let username := qr_username row in
        let c := Sql.delete_qr token c in
        let c := Sql.commit c in
        (Sql.close c, ClaimOk (create_jwt now username))
  end.

End Claim.

(** ** The notification hub *)

(** The events the server pushes. A progress event carries
    [{percent: 0, bytes, total: 0}]; its two speed fields are floating-point
    quotients of wall-clock differences and are not modelled. *)
Inductive message :=
| Progress (percent bytes total : Z)
| Refresh.

(** A connection whose handshake the server has answered: whether sending
    to it still works, and what it has been sent, oldest first. *)
Record websocket := mk_ws {
  ws_open : bool;
  ws_inbox : list message
}.

Module Hub.

(** [Hub.rooms], and the connection objects it refers to. [sockets] holds
    the connections that have been accepted; a connection that is not in it
    is still waiting for the answer to its handshake. [sent] is a history
    the code does not keep: every call of [Hub.broadcast] so far, oldest
    first, with the room it addressed. *)
Record t := mk {
  rooms : gmap string (gset nat);
  sockets : gmap nat websocket;
  sent : list (string * message)
}.

Definition room (h : t) (username : string) : gset nat :=
  default ∅ (rooms h !! username).

(** [ws.send_json(message)]: [None] when it raises. *)
Definition send_json (msg : message) (ws : websocket) : option websocket :=
  if ws_open ws then Some (mk_ws true (ws_inbox ws ++ [msg])) else None.

(** [ws.accept()] of Starlette answers the handshake of a connection that
    is still waiting for it, the client being there; on a connection that
    has been accepted, or closed since, it raises [RuntimeError] ([None])
    and changes nothing. *)
Definition accept (ws : nat) (socks : gmap nat websocket) : option (gmap nat websocket) :=
  match socks !! ws with
  | None => Some (<[ws := mk_ws true []]> socks)
  | Some _ => None
  end.

(** [ws.close(code)]: nothing can be sent to the connection afterwards. *)
Definition close (ws : nat) (socks : gmap nat websocket) : gmap nat websocket :=
  alter (fun s => mk_ws false (ws_inbox s)) ws socks.

(** [Hub.join]: [await ws.accept()], then
    [rooms.setdefault(username, set()).add(ws)]; [None] when [accept]
    raised, before anything was registered. *)
Definition join (username : string) (ws : nat) (h : t) : option t :=
  socks ← accept ws (sockets h);
  Some (mk (<[username := {[ws]} ∪ room h username]> (rooms h)) socks (sent h)).

(** [Hub.leave]: [rooms.get(username, set()).discard(ws)]; a room that does
    not exist stays absent. *)
Definition leave (username : string) (ws : nat) (h : t) : t :=
  mk (alter (fun r => r ∖ {[ws]}) username (rooms h)) (sockets h) (sent h).

(** One turn of the first loop of [Hub.broadcast]: send, or note the
    connection as dead. Sending to a connection that has not been accepted
    raises as well. *)
Definition deliver (msg : message) (acc : gmap nat websocket * list nat) (ws : nat)
  : gmap nat websocket * list nat :=
  let '(socks, dead) := acc in
  match socks !! ws ≫= send_json msg with
  | Some s => (<[ws := s]> socks, dead)
  | None => (socks, dead ++ [ws])
  end.

(** [Hub.broadcast(username, message)]. *)
Definition broadcast (username : string) (msg : message) (h : t) : t :=
  let '(socks, dead) :=
    foldl (deliver msg) (sockets h, []) (elements (room h username)) in
  mk (alter (fun r => r ∖ list_to_set dead) username (rooms h)) socks
     (sent h ++ [(username, msg)]).

End Hub.

(** ** Upload *)

(** The request's file part: its name as the client sent it, and its bytes. *)
Record UploadFile := mk_upload {
  filename : string;
  body : list byte
}.

(** [file.read(n)] on what is left of the body: the next [n] bytes at most,
    and the rest. *)
Fixpoint read (n : N) (src : list byte) : list byte * list byte :=
  match src with
  | [] => ([], [])
  | b :: src' =>
      if (n =? 0)%N then ([], src)
      else let '(chunk, rest) := read (N.pred n) src' in (b :: chunk, rest)
  end.

Inductive upload_response :=
| UpUnauthorized       (* 401 *)
| UpMissing            (* 400, no file *)
| UpUnsupported        (* 400, extension not allowed *)
| UpOk (name : string) (* 200, "uploaded <name>" *)
| UpError.             (* 500, [os.makedirs] or [open] raised *)

(** [ext not in ALLOWED_EXTS] for [ext = os.path.splitext(filename)[1].lower()]. *)
Definition upload_ext (filename : string) : string :=
  Str.lower (snd (Path.splitext filename)).

Definition ext_allowed (filename : string) : bool :=
  bool_decide (upload_ext filename ∈ ALLOWED_EXTS).

(** A value together with the equation that names it, for the loop's test. *)
Definition inspect {A} (a : A) : {b | a = b} := exist _ a eq_refl.

(** The [while True] loop of [api_upload]: [size] is the argument of
    [file.read] ([MAX_UPLOAD_CHUNK] in the handler), [src] what is left of
    the request body, [q] the open destination, [total] the running count.
    Each turn reads a chunk, stops on an empty one, writes it, adds its
    length and broadcasts the new count. The result is the state and the
    final [total]. *)
Equations? upload_loop (size : N) (user : string) (q : list string) (now : Z)
    (src : list byte) (total : Z) (fs : Fs.t) (h : Hub.t)
  : (Fs.t * Hub.t) * Z by wf (length src) lt :=
  upload_loop size user q now src total fs h with inspect (read size src) := {
    | exist _ ([], _) _ => ((fs, h), total)
    | exist _ (b :: chunk, rest) E =>
        let fs' := Fs.write fs q (b :: chunk) now in
        let total' := total + Z.of_nat (length (b :: chunk)) in
        let h' := Hub.broadcast user (Progress 0 total' 0) h in
        upload_loop size user q now rest total' fs' h'
  }.
Proof.
  assert (Happ : forall n s, (read n s).1 ++ (read n s).2 = s).
  { intros n s; revert n; induction s as [|x s IH]; intros n; cbn [read]; [reflexivity|].
    destruct (n =? 0)%N; [reflexivity|].
    specialize (IH (N.pred n)). destruct (read (N.pred n) s) as [c r].
    cbn [fst snd app] in *. now rewrite IH. }
  specialize (Happ size src). rewrite E in Happ. cbn [fst snd] in Happ.
  rewrite <- Happ, length_app. cbn [length]. lia.
Qed.

(** [api_upload(user, file)] when the clock reads [now]; [user] is what
    [require_user] returned. *)
Definition api_upload (now : Z) (user : option string) (file : UploadFile)
    (fs : Fs.t) (h : Hub.t) : (Fs.t * Hub.t) * upload_response :=
  match user with
  | None => ((fs, h), UpUnauthorized)
  | Some user =>
      if negb (Str.truthy user) then ((fs, h), UpUnauthorized)
      else if negb (Str.truthy (filename file)) then ((fs, h), UpMissing)
      else if negb (ext_allowed (filename file)) then ((fs, h), UpUnsupported)
      else
        match user_dir fs user with
        | (fs1, None) => ((fs1, h), UpError)
        | (fs1, Some target_dir) =>
            match Fs.makedirs fs1 target_dir with
            | (fs2, None) => ((fs2, h), UpError)
            | (fs2, Some _) =>
                let target := Path.join target_dir (filename file) in
                match Fs.open_wb fs2 target now with
                | None => ((fs2, h), UpError)
                | Some (fs3, q) =>
                    let '((fs4, h4), _) :=
                      upload_loop MAX_UPLOAD_CHUNK user q now (body file) 0 fs3 h in
                    let h5 := Hub.broadcast user Refresh h4 in
                    ((fs4, h5), UpOk (filename file))
                end
            end
        end
  end.

(** ** Removing and reading files *)

Module Os.

(** What [os.remove] can raise: the [OSError]s [FileNotFoundError],
    [NotADirectoryError], [IsADirectoryError] and the one for a name that
    is too long, and the [ValueError] for a path that holds NUL. *)
Inductive error := ENOENT | ENOTDIR | EISDIR | ENAMETOOLONG | EmbeddedNull.

(** [Fs.walk], telling why it stops: a component that is missing, one that
    is a regular file, or one that is too long. *)
Fixpoint walk (fs : Fs.t) (cur : list string) (comps : list string)
  : error + list string :=
  match comps with
  | [] => inr cur
  | c :: cs =>
      match Fs.classify c with
      | Fs.Stay => walk fs cur cs
      | Fs.Up => walk fs (Fs.parent cur) cs
      | Fs.Down name =>
          match Fs.node_at fs (cur ++ [name]) with
          | Some Fs.Dir => walk fs (cur ++ [name]) cs
          | Some (Fs.File _ _) => inl ENOTDIR
          | None => inl ENOENT
          end
      | Fs.Invalid => inl ENAMETOOLONG
      end
  end.

(** [os.remove(p)]: the regular file that [p] names is unlinked; the call
    raises when [p] holds NUL, is too long, names nothing, names a
    directory, goes through a regular file or through a name that is too
    long. The result is the file system as the call leaves it and the error
    raised, if any. *)
Definition remove (fs : Fs.t) (p : string) : Fs.t * option error :=
  if Str.contains_char Fs.NUL p then (fs, Some EmbeddedNull)
  else if negb (Str.truthy p) then (fs, Some ENOENT)
  else if negb (Fs.path_fits p) then (fs, Some ENAMETOOLONG)
  else
    let cs := Fs.components p in
    match walk fs (Fs.start fs p) (removelast cs) with
    | inl e => (fs, Some e)
    | inr d =>
        match Fs.classify (List.last cs "") with
        | Fs.Stay => (fs, Some (if Fs.isdir_at fs d then EISDIR else ENOTDIR))
        | Fs.Up => (fs, Some EISDIR)
        | Fs.Down name =>
            match Fs.node_at fs (d ++ [name]) with
            | Some (Fs.File _ _) =>
                (Fs.mk (Fs.cwd fs) (delete (d ++ [name]) (Fs.nodes fs)), None)
            | Some Fs.Dir => (fs, Some EISDIR)
            | None => (fs, Some ENOENT)
            end
        | Fs.Invalid => (fs, Some ENAMETOOLONG)
        end
    end.

(** The bytes a [FileResponse] for the path [p] sends. *)
Definition read_file (fs : Fs.t) (p : string) : option (list byte) :=
  Fs.locate fs p ≫= Fs.content_at fs.

End Os.

(** ** Files: listing, download, delete *)

Inductive files_response :=
| FilesUnauthorized                       (* 401 *)
| FilesOk (files : list file_entry)       (* 200 *)
| FilesError.                             (* 500, an OS call raised *)

(** [api_files(user)]. *)
Definition api_files (user : option string) (fs : Fs.t) : Fs.t * files_response :=
  match user with
  | None => (fs, FilesUnauthorized)
  | Some user =>
      if negb (Str.truthy user) then (fs, FilesUnauthorized)
      else match list_user_files fs user with
           | (fs', Some files) => (fs', FilesOk files)
           | (fs', None) => (fs', FilesError)
           end
  end.

Inductive download_response :=
| DlUnauthorized                                  (* 401 *)
| DlNotFound                                      (* 404 *)
| DlFile (name : string) (content : list byte)    (* 200, attachment [name] *)
| DlError.                                        (* 500, an OS call raised *)

(** [api_download(name, user)]. *)
Definition api_download (name : string) (user : option string) (fs : Fs.t)
  : Fs.t * download_response :=
  match user with
  | None => (fs, DlUnauthorized)
  | Some user =>
      if negb (Str.truthy user) then (fs, DlUnauthorized)
      else match user_dir fs user with
           | (fs1, None) => (fs1, DlError)
           | (fs1, Some dir) =>
               let p := Path.join dir name in
               if negb (Fs.isfile fs1 p) then (fs1, DlNotFound)
               else match Os.read_file fs1 p with
                    | Some content => (fs1, DlFile name content)
                    | None => (fs1, DlError)
                    end
           end
  end.

Inductive delete_response :=
| DelUnauthorized      (* 401 *)
| DelOk                (* 200 *)
| DelError.            (* 500, an OS call raised something else than
                          [FileNotFoundError] *)

(** [api_delete(name, user)]. *)
Definition api_delete (name : string) (user : option string) (fs : Fs.t) (h : Hub.t)
  : (Fs.t * Hub.t) * delete_response :=
  match user with
  | None => ((fs, h), DelUnauthorized)
  | Some user =>
      if negb (Str.truthy user) then ((fs, h), DelUnauthorized)
      else match user_dir fs user with
           | (fs1, None) => ((fs1, h), DelError)
           | (fs1, Some dir) =>
               let p := Path.join dir name in
               match Os.remove fs1 p with
               | (fs2, None) | (fs2, Some Os.ENOENT) =>
                   ((fs2, Hub.broadcast user Refresh h), DelOk)
               | (fs2, Some _) => ((fs2, h), DelError)
               end
           end
  end.

(** ** Login *)

(** [pbkdf2_sha256.verify(password, hash)]. *)
Class PasswordCheck := {
  pbkdf2_sha256_verify : string -> string -> bool
}.

Inductive login_response :=
| LoginFailed               (* 401, the one answer for every failure *)
| LoginOk (session : jwt).  (* 200, with the session cookie *)

Section Login.
Context `{Platform} `{PasswordCheck}.

(** [api_login(request)] when the clock reads [now]; the two options are
    [body.get("username")] and [body.get("password")]. *)
Definition api_login (now : Z) (body_username body_password : option string) (d : Db)
  : Db * login_response :=
  let username := Str.strip (or_empty body_username) in
  let password := or_empty body_password in
  let c := Sql.db d in
  let row := users (pending c) !! username in   (* SELECT password_hash ... *)
  let d' := Sql.close c in
  match row with
  | None => (d', LoginFailed)
  | Some r =>
      if negb (pbkdf2_sha256_verify password (password_hash r)) then (d', LoginFailed)
      else (d', LoginOk (create_jwt now username))
  end.

End Login.

(** ** The authentication middleware *)

Inductive mw_response :=
| MwRedirect     (* 307 to /auth *)
| MwForward.     (* [call_next(request)] *)

Definition public_paths : list string :=
  ["/auth"; "/api/login"; "/api/register"; "/api/qr/claim"].

(** [s.startswith(tuple(ps))]. *)
Definition startswith_any (ps : list string) (s : string) : bool :=
  existsb (fun p => Str.startswith p s) ps.

Section Middleware.
Context `{Platform}.

(** [not token or not verify_jwt(token)] for the [session] cookie. *)
Definition no_session (now : Z) (cookie : option jwt) : bool :=
  match cookie with
  | None => true
  | Some token =>
      match verify_jwt now token with
      | None => true
      | Some sub => negb (Str.truthy sub)
      end
  end.

(** [require_auth_mw(request, call_next)] when the clock reads [now]. *)
Definition require_auth_mw (now : Z) (method path : string) (cookie : option jwt)
  : mw_response :=
  if startswith_any public_paths path || Str.startswith "/static" path
     || Str.startswith "/api/lan" path
  then MwForward
  else if negb (bool_decide (path ∈ ["/"; "/api/me"])) && no_session now cookie then
    if String.eqb method "GET" && negb (Str.startswith "/api" path)
    then MwRedirect else MwForward
  else MwForward.

End Middleware.

(** ** The WebSocket endpoint *)

(** What [receive_text] meets: a text frame, which it returns, or anything
    else (the client going away, a binary frame), for which it raises. *)
Inductive frame := TextFrame | Raising.

(** The [while True] loop of [ws_main] over the frames the client sends:
    [true] when [receive_text] raised, [false] when the frames are used up
    and the handler is still waiting. *)
Fixpoint receive_loop (frames : list frame) : bool :=
  match frames with
  | [] => false
  | TextFrame :: frames' => receive_loop frames'
  | Raising :: _ => true
  end.

Inductive ws_outcome :=
| WsRaised       (* the first [accept] raised: the exception leaves the handler *)
| WsClosed       (* no valid session: closed with code 4401 *)
| WsLeft         (* the handler returned through [Hub.leave] *)
| WsListening.   (* registered, and waiting in [receive_text] *)

Section WebSocketEndpoint.
Context `{Platform}.

(** [ws_main(websocket)] when the clock reads [now], for the connection
    [ws] with the [session] cookie [cookie] and a client that sends
    [frames]. The state is the one the handler leaves; the server closes
    the connection once the handler has returned. *)
Definition ws_main (now : Z) (cookie : option jwt) (frames : list frame) (ws : nat)
    (h : Hub.t) : Hub.t * ws_outcome :=
  match Hub.accept ws (Hub.sockets h) with
  | None => (h, WsRaised)
  | Some socks =>
      let h1 := Hub.mk (Hub.rooms h) socks (Hub.sent h) in
      match (match cookie with Some token => verify_jwt now token | None => None end) with
      | None => (Hub.mk (Hub.rooms h1) (Hub.close ws socks) (Hub.sent h1), WsClosed)
      | Some user =>
          if negb (Str.truthy user)
          then (Hub.mk (Hub.rooms h1) (Hub.close ws socks) (Hub.sent h1), WsClosed)
          else
            match Hub.join user ws h1 with
            | None => (Hub.leave user ws h1, WsLeft)
            | Some h2 =>
                if receive_loop frames then (Hub.leave user ws h2, WsLeft)
                else (h2, WsListening)
            end
      end
  end.

End WebSocketEndpoint.

(** ** Histories of registrations *)

Record register_request := mk_reg {
  rq_now : Z;
  rq_salt : string;
  rq_ip : string;
  rq_username : option string;
  rq_password : option string
}.


(** The account was committed: the handler answered 200, or 500 because
    [os.makedirs] raised after the commit. *)
Definition created (resp : register_response) : bool :=
  match resp with
  | RegOk _ | RegError => true
  | _ => false
  end.

Section History.
Context `{Platform}.

Definition register_step (st : Db * Fs.t) (r : register_request)
  : (Db * Fs.t) * register_response :=
  api_register (rq_now r) (rq_salt r) (rq_ip r) (rq_username r) (rq_password r)
               (fst st) (snd st).

(** The requests of [rs] served one after the other, with their responses. *)
Fixpoint run_register (st : Db * Fs.t) (rs : list register_request)
  : (Db * Fs.t) * list register_response :=
  match rs with
  | [] => (st, [])
  | r :: rs' =>
      let '(st1, resp) := register_step st r in
      let '(st2, resps) := run_register st1 rs' in
      (st2, resp :: resps)
  end.

(** The database after a registration went through: the user row is added
    and the count of the address goes up by one, in one commit. *)
Definition register_commit (now : Z) (salt ip username password : string) (d : Db) : Db :=
  mk_db (<[username := mk_user (pbkdf2_sha256_hash salt password) now]> (users d))
        (qr_tokens d)
        (match ip_quota d !! ip with
         | Some _ => alter (fun n => n + 1) ip (ip_quota d)
         | None => <[ip := 1]> (ip_quota d)
         end).

End History.


Definition quota_of (d : Db) (ip : string) : Z := default 0 (ip_quota d !! ip).

(** ** Words of the specification *)

(** The cumulative byte counts of the progress events among [msgs]. *)
Definition progress_bytes (msgs : list message) : list Z :=
  omap (fun m => match m with Progress _ b _ => Some b | Refresh => None end) msgs.

(** One letter in either case: [u] is the capital of the small ASCII letter [l]. *)
Definition capital_of (u l : ascii) : bool :=
  (97 <=? Str.code l) && (Str.code l <=? 122) && (Str.code u =? Str.code l - 32).

Definition same_letter (c d : ascii) : bool :=
  Ascii.eqb c d || capital_of c d || capital_of d c.

(** [s] and [t] differ in letter case at most. *)
Fixpoint differs_only_in_case (s t : string) : bool :=
  match s, t with
  | EmptyString, EmptyString => true
  | String c s', String d t' => same_letter c d && differs_only_in_case s' t'
  | _, _ => false
  end.

(** [ws] is registered for [user], open, and has received [inbox]. *)
Definition listening (h : Hub.t) (user : string) (ws : nat) (inbox : list message) : Prop :=
  ws ∈ Hub.room h user /\ Hub.sockets h !! ws = Some (mk_ws true inbox).

(** Sending to [ws] works: the connection object is there and open. *)
Definition alive (h : Hub.t) (ws : nat) : bool :=
  match Hub.sockets h !! ws with
  | Some s => ws_open s
  | None => false
  end.

(** What a connection holds after [msg] was sent to it, if it is open. *)
Definition after_send (msg : message) (s : websocket) : websocket :=
  if ws_open s then mk_ws true (ws_inbox s ++ [msg]) else s.

(** The file name is one path component: it has no separator in it. *)
Definition plain_name (name : string) : Prop :=
  Str.contains_char Path.sep name = false.

(** ** Sample environments *)

(** A server whose local time is UTC, and one whose local time is seven
    hours ahead (Asia/Ho_Chi_Minh). The signature and the hash are stand-ins:
    nothing below depends on what they compute. *)
Definition utc_server : Platform :=
  {| SECRET_KEY := "dev-secret-change-me";
     hs256 := fun key sub _ => key +:+ "." +:+ sub;
     pbkdf2_sha256_hash := fun salt pw => salt +:+ "$" +:+ pw;
     utc_offset := fun _ => 0 |}.

Definition hcm_server : Platform :=
  {| SECRET_KEY := "dev-secret-change-me";
     hs256 := fun key sub _ => key +:+ "." +:+ sub;
     pbkdf2_sha256_hash := fun salt pw => salt +:+ "$" +:+ pw;
     utc_offset := fun _ => 7 * 3600 |}.

(** A server on New York time around the night of 5 November 2023, when
    local time went from four to five hours behind UTC at 06:00 UTC. *)
Definition ny_server : Platform :=
  {| SECRET_KEY := "dev-secret-change-me";
     hs256 := fun key sub _ => key +:+ "." +:+ sub;
     pbkdf2_sha256_hash := fun salt pw => salt +:+ "$" +:+ pw;
     utc_offset := fun u => if u <? 1699164000 then - (4 * 3600) else - (5 * 3600) |}.

(** A stand-in for [pbkdf2_sha256.verify] that goes with the stand-in hash
    of the two servers: the hash ends in ["$"] and the password. *)
Fixpoint ends_with (t s : string) : bool :=
  String.eqb t s
  || match s with
     | EmptyString => false
     | String _ s' => ends_with t s'
     end.

Definition sample_check : PasswordCheck :=
  {| pbkdf2_sha256_verify := fun pw hash => ends_with ("$" +:+ pw) hash |}.

(** A server started in [/srv/nas], with nothing stored yet. *)
Definition fs0 : Fs.t :=
  Fs.mk ["srv"; "nas"] (<[ ["srv"; "nas"] := Fs.Dir ]> {[ ["srv"] := Fs.Dir ]}).

(** A hub with one open connection registered in alice's room. *)
Definition hub1 : Hub.t :=
  Hub.mk {[ "alice" := {[ 1%nat ]} ]} {[ 1%nat := mk_ws true [] ]} [].

(** A store holding one QR token of alice's, issued at 1000. *)
Definition db_qr : Db := fst (new_qr_token 1000 "tok" "alice" init_db).

(** A three-byte archive, and alice's directory on [fs0]. *)
Definition zip3 : UploadFile := mk_upload "a.zip" [x01; x02; x03].
Definition alice_dir : list string := ["srv"; "nas"; "data"; "alice"].

(** [s * n] of Python, and two archive names: one of 255 bytes, and
    ['A' * 252 + '.ZIP'] of 256. *)
Fixpoint times (s : string) (n : nat) : string :=
  match n with
  | O => EmptyString
  | S n' => s +:+ times s n'
  end.

Definition zip255 : string := times "A" 251 +:+ ".ZIP".
Definition zip256 : string := times "A" 252 +:+ ".ZIP".

(** The file system once alice's directory has been made, as registration
    does. *)
Definition fs_alice : Fs.t := (user_dir fs0 "alice").1.

(** The file system after alice has uploaded [zip3], and after she has
    uploaded a second archive as well. *)
Definition fs_zip : Fs.t := (api_upload 100 (Some "alice") zip3 fs0 hub1).1.1.
Definition fs_two : Fs.t :=
  (api_upload 200 (Some "alice") (mk_upload "b.rar" [x04]) fs_zip hub1).1.1.

(** Registration requests: three from one address, and a second "alice"
    from another. *)
Definition reg_alice : register_request :=
  mk_reg 1000 "s1" "10.0.0.5" (Some " alice ") (Some "pw1").
Definition reg_bob : register_request :=
  mk_reg 1010 "s2" "10.0.0.5" (Some "bob") (Some "pw2").
Definition reg_carol : register_request :=
  mk_reg 1020 "s3" "10.0.0.5" (Some "carol") (Some "pw3").
Definition reg_alice_again : register_request :=
  mk_reg 1030 "s4" "10.0.0.9" (Some "alice") (Some "pw4").

(** * Properties *)

(** ** The library functions on small inputs *)

Example splitext_zip : Path.splitext "a.zip" = ("a", ".zip").
Proof. reflexivity. Qed.

Example splitext_upper : Path.splitext "dir.d/A.ZIP" = ("dir.d/A", ".ZIP").
Proof. reflexivity. Qed.

Example splitext_dotfile : Path.splitext "x/..zip" = ("x/..zip", "").
Proof. reflexivity. Qed.

Example splitext_hidden : Path.splitext ".bashrc" = (".bashrc", "").
Proof. reflexivity. Qed.

Example splitext_traversal : Path.splitext "../secret.zip" = ("../secret", ".zip").
Proof. reflexivity. Qed.

Example join_plain : Path.join "data/alice" "a.zip" = "data/alice/a.zip".
Proof. reflexivity. Qed.

Example join_absolute : Path.join "data/alice" "/tmp/a.zip" = "/tmp/a.zip".
Proof. reflexivity. Qed.

Example strip_spaces : Str.strip "  bob  " = "bob".
Proof. reflexivity. Qed.

Example user_dir_alice :
  (fun r => (Fs.isdir_at (fst r) ["srv"; "nas"; "data"; "alice"], snd r))
    (user_dir fs0 "alice")
  = (true, Some "data/alice").
Proof. vm_compute. reflexivity. Qed.

Example user_dir_dotdot :
  (fun r => (Fs.isdir_at (fst r) ["srv"; "nas"; "x"],
             Fs.isdir_at (fst r) ["srv"; "nas"; "data"])) (user_dir fs0 "../x")
  = (true, true).
Proof. vm_compute. reflexivity. Qed.

(** ** Session tokens *)

Section SessionTokens.
Context `{Platform}.

(** The stored expiry is the wall-clock value 24 hours after [T], read as
    local time. *)
Lemma create_jwt_exp (T : Z) (u : string) :
  jwt_exp (create_jwt T u) = naive_timestamp (T + 86400).
Proof.
  unfold create_jwt, JWT_EXP_MIN. cbn [jwt_exp].
  replace (T + 24 * 60 * 60) with (T + 86400) by lia. reflexivity.
Qed.

(** A token the server issued at [T] verifies exactly until its stored
    expiry. *)
Lemma verify_create_jwt (T now : Z) (u : string) :
  verify_jwt now (create_jwt T u)
  = if naive_timestamp (T + 86400) <? now then None else Some u.
Proof.
  rewrite <- (create_jwt_exp T u).
  unfold verify_jwt, jwt_decode, create_jwt.
  cbn [jwt_sig jwt_sub jwt_exp].
  rewrite String.eqb_refl. cbn [negb].
  now destruct (_ <? now).
Qed.

(** Reading a wall-clock value as local time takes off an offset that the
    zone has at some instant. *)
Lemma naive_timestamp_offset (t : Z) :
  exists s, naive_timestamp t = t - utc_offset s.
Proof.
  unfold naive_timestamp, local.
  set (a := t + utc_offset t - t).
  assert (Ha : a = utc_offset t) by (unfold a; lia).
  set (u1 := t - a).
  set (b := if u1 + utc_offset u1 =? t
            then u1 - max_fold_seconds + utc_offset (u1 - max_fold_seconds)
                 - (u1 - max_fold_seconds)
            else u1 + utc_offset u1 - u1).
  assert (Hb : exists s, b = utc_offset s).
  { unfold b. destruct (u1 + utc_offset u1 =? t).
    - exists (u1 - max_fold_seconds). lia.
    - exists u1. lia. }
  destruct Hb as [sb Hb].
  assert (H1 : exists s, u1 = t - utc_offset s) by (exists t; unfold u1; lia).
  assert (H2 : exists s, t - b = t - utc_offset s) by (exists sb; lia).
  destruct ((u1 + utc_offset u1 =? t) && (a =? b)); [exact H1|].
  destruct (t - b + utc_offset (t - b) =? t); [exact H2|].
  destruct (u1 + utc_offset u1 =? t); [exact H1|].
  destruct (Z.max_spec u1 (t - b)) as [[_ ->]|[_ ->]]; assumption.
Qed.

(** In a zone whose offset never changes, it takes off that offset. *)
Lemma naive_timestamp_fixed (z t : Z) :
  (forall s, utc_offset s = z) -> naive_timestamp t = t - z.
Proof.
  intros Hz. unfold naive_timestamp, local. rewrite !Hz.
  replace (t - (t + z - t) + z) with t by lia.
  rewrite Z.eqb_refl.
  replace (t - (t + z - t) - max_fold_seconds + z - (t - (t + z - t) - max_fold_seconds))
    with (t + z - t) by lia.
  rewrite Z.eqb_refl. cbn [andb]. lia.
Qed.

(** On a server whose local time is UTC the window is the 24 hours of
    [JWT_EXP_MIN]. *)
Lemma session_token_24h_in_utc (T now : Z) (u : string) :
  (forall s, utc_offset s = 0) ->
  (now <= T + 86400 -> verify_jwt now (create_jwt T u) = Some u)
  /\ (T + 86400 < now -> verify_jwt now (create_jwt T u) = None).
Proof.
  intros Hz. rewrite verify_create_jwt, (naive_timestamp_fixed 0 _ Hz).
  split; intros Hn.
  - destruct (Z.ltb_spec (T + 86400 - 0) now); [lia | reflexivity].
  - destruct (Z.ltb_spec (T + 86400 - 0) now); [reflexivity | lia].
Qed.

(** A token whose signature does not match is refused at any time. *)
Lemma verify_jwt_bad_signature (now : Z) (t : jwt) :
  jwt_sig t <> hs256 SECRET_KEY (jwt_sub t) (jwt_exp t) ->
  verify_jwt now t = None.
Proof.
  intros Hs. unfold verify_jwt, jwt_decode.
  destruct (String.eqb_spec (jwt_sig t) (hs256 SECRET_KEY (jwt_sub t) (jwt_exp t)));
    [contradiction | reflexivity].
Qed.

End SessionTokens.

(** C5, evaluated where it fails. On a server seven hours ahead of UTC a token
    issued at [T = 1700000000] stores the expiry [T + 17h]: it is refused at
    [T + 23h59m], and already one second after [T + 17h]. *)
Theorem create_jwt_expiry_shifted_by_zone :
  let T := 1700000000 in
  let token := @create_jwt hcm_server T "alice" in
  jwt_exp token = T + 17 * 3600
  /\ @verify_jwt hcm_server (T + 17 * 3600) token = Some "alice"
  /\ @verify_jwt hcm_server (T + 17 * 3600 + 1) token = None
  /\ @verify_jwt hcm_server (T + 23 * 3600 + 59 * 60) token = None.
Proof. vm_compute. repeat split; reflexivity. Qed.

(** On the server on New York time a token issued at noon UTC of
    4 November 2023 stores the wall-clock value of the next noon read as
    the winter time that holds then: [T + 24h + 5h]. *)
Example create_jwt_across_offset_change :
  let T := 1699099200 in
  let token := @create_jwt ny_server T "alice" in
  jwt_exp token = T + 104400
  /\ @verify_jwt ny_server (T + 104400) token = Some "alice"
  /\ @verify_jwt ny_server (T + 104401) token = None.
Proof. vm_compute. repeat split; reflexivity. Qed.

Example session_token_utc_window :
  let T := 1700000000 in
  let token := @create_jwt utc_server T "alice" in
  @verify_jwt utc_server (T + 23 * 3600 + 59 * 60) token = Some "alice"
  /\ @verify_jwt utc_server (T + 24 * 3600 + 60) token = None.
Proof. vm_compute. split; reflexivity. Qed.

(** ** QR claim tokens *)

Section QrClaim.
Context `{Platform}.

Lemma api_qr_claim_absent (now : Z) (token : string) (d : Db) :
  qr_tokens d !! token = None ->
  api_qr_claim now token d = (d, ClaimInvalid).
Proof.
  intros Hn. unfold api_qr_claim, Sql.select_qr, Sql.db. cbn [pending].
  now rewrite Hn.
Qed.

Lemma api_qr_claim_expired (now : Z) (token : string) (d : Db) (row : qr_row) :
  qr_tokens d !! token = Some row -> expire_at row < now ->
  api_qr_claim now token d = (d, ClaimExpired).
Proof.
  intros Hr Hlt. unfold api_qr_claim, Sql.select_qr, Sql.db. cbn [pending].
  rewrite Hr. destruct (Z.ltb_spec (expire_at row) now); [reflexivity | lia].
Qed.

Lemma api_qr_claim_live (now : Z) (token : string) (d : Db) (row : qr_row) :
  qr_tokens d !! token = Some row -> now <= expire_at row ->
  api_qr_claim now token d
  = (mk_db (users d) (delete token (qr_tokens d)) (ip_quota d),
     ClaimOk (create_jwt now (qr_username row))).
Proof.
  intros Hr Hle. unfold api_qr_claim, Sql.select_qr, Sql.db. cbn [pending].
  rewrite Hr. destruct (Z.ltb_spec (expire_at row) now); [lia | reflexivity].
Qed.

(** C2, as the code has it. A claim fails exactly when the token is absent
    or the clock is strictly past [expire_at]; a claim made at [expire_at]
    itself is honoured. *)
Theorem api_qr_claim_fails_iff (now : Z) (token : string) (d : Db) :
  invalid_or_expired (snd (api_qr_claim now token d))
  <-> match qr_tokens d !! token with
      | None => True
      | Some row => expire_at row < now
      end.
Proof.
  destruct (qr_tokens d !! token) as [row|] eqn:Hr.
  - destruct (Z.lt_ge_cases (expire_at row) now) as [Hlt|Hge].
    + rewrite (api_qr_claim_expired _ _ _ _ Hr Hlt). split; [auto | intros _; now right].
    + rewrite (api_qr_claim_live _ _ _ _ Hr Hge). cbn [snd].
      split; [intros [E|E]; discriminate E | lia].
  - rewrite (api_qr_claim_absent _ _ _ Hr). split; [auto | intros _; now left].
Qed.

(** C3. A claim that succeeds removes the token's row, so every later claim
    of the same token, at any time, finds nothing and fails. *)
Theorem api_qr_claim_single_use (now : Z) (token : string) (d d' : Db) (s : jwt) :
  api_qr_claim now token d = (d', ClaimOk s) ->
  qr_tokens d' !! token = None
  /\ forall now', api_qr_claim now' token d' = (d', ClaimInvalid).
Proof.
  intros Hc.
  assert (Hgone : qr_tokens d' !! token = None).
  { destruct (qr_tokens d !! token) as [row|] eqn:Hr.
    - destruct (Z.lt_ge_cases (expire_at row) now) as [Hlt|Hge].
      + rewrite (api_qr_claim_expired _ _ _ _ Hr Hlt) in Hc. discriminate Hc.
      + rewrite (api_qr_claim_live _ _ _ _ Hr Hge) in Hc.
        injection Hc as <- _. cbn [qr_tokens]. apply lookup_delete_eq.
    - rewrite (api_qr_claim_absent _ _ _ Hr) in Hc. discriminate Hc. }
  split; [exact Hgone|].
  intros now'. now apply api_qr_claim_absent.
Qed.

(** C8, as the code has it. A claim that finds the row past its expiry
    fails and leaves the store as it was: the row is still there, and the
    same token keeps failing as expired at every later time. *)
Theorem api_qr_claim_expired_keeps_row
    (now : Z) (token : string) (d : Db) (row : qr_row) :
  qr_tokens d !! token = Some row -> expire_at row < now ->
  api_qr_claim now token d = (d, ClaimExpired)
  /\ qr_tokens (fst (api_qr_claim now token d)) !! token = Some row
  /\ forall now', now <= now' ->
       api_qr_claim now' token (fst (api_qr_claim now token d)) = (d, ClaimExpired).
Proof.
  intros Hr Hlt. rewrite (api_qr_claim_expired _ _ _ _ Hr Hlt). cbn [fst].
  repeat split; [exact Hr|].
  intros now' Hle. apply (api_qr_claim_expired _ _ _ _ Hr). lia.
Qed.

End QrClaim.

Example db_qr_row : qr_tokens db_qr !! "tok" = Some (mk_qr "alice" 1120).
Proof. vm_compute. reflexivity. Qed.

(** C2 fails at the boundary: the token expires at 1120, and a first claim
    at 1120 is accepted. *)
Lemma api_qr_claim_at_expiry_accepted :
  snd (@api_qr_claim utc_server 1120 "tok" db_qr)
  = ClaimOk (@create_jwt utc_server 1120 "alice")
  /\ ~ invalid_or_expired (snd (@api_qr_claim utc_server 1120 "tok" db_qr)).
Proof.
  assert (E : snd (@api_qr_claim utc_server 1120 "tok" db_qr)
              = ClaimOk (@create_jwt utc_server 1120 "alice"))
    by (vm_compute; reflexivity).
  split; [exact E|]. rewrite E. intros [C|C]; discriminate C.
Qed.

Lemma api_qr_claim_single_use_witness :
  qr_tokens (fst (@api_qr_claim utc_server 1050 "tok" db_qr)) !! "tok" = None
  /\ forall now',
       @api_qr_claim utc_server now' "tok" (fst (@api_qr_claim utc_server 1050 "tok" db_qr))
       = (fst (@api_qr_claim utc_server 1050 "tok" db_qr), ClaimInvalid).
Proof.
  apply (@api_qr_claim_single_use utc_server 1050 "tok" db_qr _
           (@create_jwt utc_server 1050 "alice")).
  apply (@api_qr_claim_live utc_server 1050 "tok" db_qr (mk_qr "alice" 1120)).
  - vm_compute; reflexivity.
  - cbn; lia.
Defined.

(** C8 fails on the code: a claim at 1121 finds the row expired, answers 400,
    and the row is still in the store afterwards. *)
Lemma api_qr_claim_expired_row_survives :
  snd (@api_qr_claim utc_server 1121 "tok" db_qr) = ClaimExpired
  /\ qr_tokens (fst (@api_qr_claim utc_server 1121 "tok" db_qr)) !! "tok"
     = Some (mk_qr "alice" 1120).
Proof. vm_compute. split; reflexivity. Qed.

Lemma api_qr_claim_expired_keeps_row_witness :
  @api_qr_claim utc_server 1121 "tok" db_qr = (db_qr, ClaimExpired)
  /\ qr_tokens (fst (@api_qr_claim utc_server 1121 "tok" db_qr)) !! "tok"
     = Some (mk_qr "alice" 1120)
  /\ forall now', 1121 <= now' ->
       @api_qr_claim utc_server now' "tok" (fst (@api_qr_claim utc_server 1121 "tok" db_qr))
       = (db_qr, ClaimExpired).
Proof.
  apply (@api_qr_claim_expired_keeps_row utc_server 1121 "tok" db_qr (mk_qr "alice" 1120)).
  - vm_compute; reflexivity.
  - cbn; lia.
Defined.

(** ** Path strings *)

Section PathStrings.

Lemma append_cons (x : ascii) (a b : string) : String x a +:+ b = String x (a +:+ b).
Proof. reflexivity. Qed.

Lemma append_nil (b : string) : "" +:+ b = b.
Proof. reflexivity. Qed.

Lemma append_assoc (a b c : string) : (a +:+ b) +:+ c = a +:+ (b +:+ c).
Proof.
  induction a as [|x a IH]; [reflexivity|].
  now rewrite !append_cons, IH.
Qed.

Lemma split_nonempty (c : ascii) (s : string) : Str.split c s <> [].
Proof.
  destruct s as [|d s]; cbn; [discriminate|].
  destruct (Ascii.eqb c d); [discriminate|].
  destruct (Str.split c s); discriminate.
Qed.

(** Splitting distributes over a separator. *)
Lemma split_app (c : ascii) (a b : string) :
  Str.split c (a +:+ String c b) = Str.split c a ++ Str.split c b.
Proof.
  induction a as [|d a IH].
  - rewrite append_nil. cbn [Str.split]. now rewrite Ascii.eqb_refl.
  - rewrite append_cons. cbn [Str.split]. rewrite IH.
    destruct (Ascii.eqb c d); [reflexivity|].
    pose proof (split_nonempty c a) as Hne.
    destruct (Str.split c a) as [|h t]; [contradiction | reflexivity].
Qed.

Lemma split_plain (c : ascii) (s : string) :
  Str.contains_char c s = false -> Str.split c s = [s].
Proof.
  induction s as [|d s IH]; cbn; [reflexivity|].
  intros Hc. apply orb_false_iff in Hc as [Hd Hs].
  rewrite Hd, (IH Hs). reflexivity.
Qed.

Lemma endswith_char_inv (c : ascii) (s : string) :
  Str.endswith_char c s = true -> exists s', s = s' +:+ String c "".
Proof.
  induction s as [|d s IH]; cbn; [discriminate|].
  destruct s as [|e s].
  - intros E. apply Ascii.eqb_eq in E as <-. now exists "".
  - intros E. destruct (IH E) as [s' ->]. now exists (String d s').
Qed.

Lemma startswith_sep_append (a b : string) :
  a <> "" -> Str.startswith "/" (a +:+ b) = Str.startswith "/" a.
Proof.
  destruct a as [|x a]; [contradiction|]. intros _.
  rewrite append_cons. reflexivity.
Qed.

Lemma plain_name_relative (f : string) :
  plain_name f -> Str.startswith "/" f = false.
Proof.
  unfold plain_name. destruct f as [|x f]; cbn; [reflexivity|].
  intros Hc. apply orb_false_iff in Hc as [Hx _].
  unfold Path.sep in Hx. now rewrite Hx.
Qed.

(** The components of [join p f] for a one-component [f]: those of [p],
    less a trailing empty one, and then [f]. *)
Lemma components_join (p f : string) :
  p <> "" -> plain_name f ->
  exists cs,
    Fs.components (Path.join p f) = cs ++ [f]
    /\ (Fs.components p = cs \/ Fs.components p = cs ++ [""])
    /\ Str.startswith "/" (Path.join p f) = Str.startswith "/" p.
Proof.
  intros Hp Hf. unfold Path.join, Fs.components.
  rewrite (plain_name_relative f Hf).
  assert (Ht : Str.truthy p = true) by (destruct p; [contradiction | reflexivity]).
  rewrite Ht. cbn [negb orb].
  destruct (Str.endswith_char Path.sep p) eqn:He.
  - destruct (endswith_char_inv _ _ He) as [p' ->].
    exists (Str.split Path.sep p'). repeat split.
    + rewrite append_assoc, append_cons, append_nil.
      rewrite split_app, (split_plain _ _ Hf). reflexivity.
    + right. rewrite split_app. reflexivity.
    + now rewrite startswith_sep_append.
  - exists (Str.split Path.sep p). repeat split.
    + change ("/" +:+ f) with (String Path.sep f).
      rewrite split_app, (split_plain _ _ Hf). reflexivity.
    + now left.
    + now rewrite startswith_sep_append.
Qed.

Lemma join_nonempty (a b : string) : a <> "" -> Path.join a b <> "" \/ Str.startswith "/" b = true.
Proof.
  intros Ha. unfold Path.join. destruct (Str.startswith "/" b); [now right|]. left.
  destruct a as [|x a]; [contradiction|]. cbn [Str.truthy negb orb].
  destruct (Str.endswith_char Path.sep (String x a)); rewrite append_cons; discriminate.
Qed.

Lemma user_path_nonempty (user : string) : user <> "" -> Path.join DATA_ROOT user <> "".
Proof.
  intros Hu. unfold Path.join. destruct (Str.startswith "/" user); [exact Hu|].
  cbn. discriminate.
Qed.

End PathStrings.

(** ** The file system: what the calls change *)

Module FsFacts.
Import Fs.

Lemma node_at_snoc (fs : t) (p : list string) (n : string) :
  node_at fs (p ++ [n]) = nodes fs !! (p ++ [n]).
Proof. destruct p; reflexivity. Qed.

Lemma parent_snoc (p : list string) (n : string) : parent (p ++ [n]) = p.
Proof. apply removelast_last. Qed.

Lemma grows_refl (fs : t) : grows fs fs.
Proof. split; [reflexivity | now left]. Qed.

Lemma grows_trans (a b c : t) : grows a b -> grows b c -> grows a c.
Proof.
  intros [Hc1 H1] [Hc2 H2]. split; [congruence|].
  intros p. destruct (H1 p) as [E1|[N1 D1]], (H2 p) as [E2|[N2 D2]].
  - left; congruence.
  - right; split; congruence.
  - right; split; congruence.
  - congruence.
Qed.

Lemma grows_add_dir (fs : t) (p : list string) :
  nodes fs !! p = None -> grows fs (add_dir fs p).
Proof.
  intros Hn. split; [reflexivity|]. intros p'. cbn [add_dir nodes].
  destruct (decide (p = p')) as [<-|Hne].
  - right. now rewrite lookup_insert_eq.
  - left. now rewrite lookup_insert_ne.
Qed.

Lemma grows_node_at (fs fs' : t) (p : list string) :
  grows fs fs' ->
  node_at fs' p = node_at fs p \/ (node_at fs p = None /\ node_at fs' p = Some Dir).
Proof.
  intros [_ Hg]. destruct p as [|x p]; [now left|]. cbn [node_at]. apply Hg.
Qed.

Lemma grows_isdir (fs fs' : t) (p : list string) :
  grows fs fs' -> isdir_at fs p = true -> isdir_at fs' p = true.
Proof.
  intros Hg. unfold isdir_at.
  destruct (grows_node_at fs fs' p Hg) as [->|[-> ->]]; [auto | discriminate].
Qed.

Lemma grows_content (fs fs' : t) (p : list string) :
  grows fs fs' -> content_at fs' p = content_at fs p.
Proof.
  intros Hg. unfold content_at.
  destruct (grows_node_at fs fs' p Hg) as [->|[-> ->]]; reflexivity.
Qed.

Lemma makedirs_from_grows (cs : list string) :
  forall fs cur fs' r, makedirs_from fs cur cs = (fs', r) -> grows fs fs'.
Proof.
  induction cs as [|c cs IH]; intros fs cur fs' r; cbn [makedirs_from].
  - intros [= <- _]. apply grows_refl.
  - destruct (classify c) as [| |name|]; [apply IH | apply IH | | intros [= <- _]; apply grows_refl].
    destruct (node_at fs (cur ++ [name])) as [[|content m]|] eqn:Hn.
    + apply IH.
    + intros [= <- _]. apply grows_refl.
    + intros Hm. apply IH in Hm. eapply grows_trans; [|exact Hm].
      apply grows_add_dir. now rewrite <- node_at_snoc.
Qed.

Lemma isdir_add_dir (fs : t) (p : list string) : isdir_at (add_dir fs p) p = true.
Proof.
  unfold isdir_at, node_at. destruct p; [reflexivity|].
  cbn [add_dir nodes]. now rewrite lookup_insert_eq.
Qed.

(** After [makedirs] every directory on the way is there to be walked. *)
Lemma makedirs_from_walk (cs : list string) :
  forall fs cur fs' d,
    makedirs_from fs cur cs = (fs', Some d) -> walk fs' cur cs = Some d.
Proof.
  induction cs as [|c cs IH]; intros fs cur fs' d; cbn [makedirs_from walk].
  - now intros [= <- <-].
  - destruct (classify c) as [| |name|]; [apply IH | apply IH | | discriminate].
    destruct (node_at fs (cur ++ [name])) as [[|content m]|] eqn:Hn.
    + intros Hm. pose proof (makedirs_from_grows _ _ _ _ _ Hm) as Hg.
      rewrite (grows_isdir fs fs' _ Hg); [now apply IH in Hm|].
      unfold isdir_at. now rewrite Hn.
    + discriminate.
    + intros Hm. pose proof (makedirs_from_grows _ _ _ _ _ Hm) as Hg.
      rewrite (grows_isdir _ fs' _ Hg (isdir_add_dir fs _)). now apply IH in Hm.
Qed.

(** Where the walk succeeds, [makedirs] has nothing to create. *)
Lemma walk_makedirs_from (cs : list string) :
  forall fs cur d, walk fs cur cs = Some d -> makedirs_from fs cur cs = (fs, Some d).
Proof.
  induction cs as [|c cs IH]; intros fs cur d; cbn [makedirs_from walk].
  - now intros [= <-].
  - destruct (classify c) as [| |name|]; [apply IH | apply IH | | discriminate].
    unfold isdir_at. destruct (node_at fs (cur ++ [name])) as [[|content m]|];
      [apply IH | discriminate | discriminate].
Qed.

Lemma walk_same_dirs (fs fs' : t) (cs : list string) :
  same_dirs fs fs' -> forall cur, walk fs' cur cs = walk fs cur cs.
Proof.
  intros [_ Hd]. induction cs as [|c cs IH]; intros cur; cbn [walk]; [reflexivity|].
  destruct (classify c) as [| |name|]; [apply IH | apply IH | | reflexivity].
  rewrite Hd. destruct (isdir_at fs (cur ++ [name])); [apply IH | reflexivity].
Qed.

Lemma walk_app (fs : t) (a b : list string) :
  forall cur, walk fs cur (a ++ b) = walk fs cur a ≫= fun d => walk fs d b.
Proof.
  induction a as [|c a IH]; intros cur; cbn [walk app]; [reflexivity|].
  destruct (classify c) as [| |name|]; [apply IH | apply IH | | reflexivity].
  destruct (isdir_at fs (cur ++ [name])); [apply IH | reflexivity].
Qed.

Lemma walk_trailing_empty (fs : t) (cs : list string) (cur : list string) :
  walk fs cur (cs ++ [""]) = walk fs cur cs.
Proof.
  rewrite walk_app. destruct (walk fs cur cs); reflexivity.
Qed.

Lemma wf_parent (fs : t) (cur : list string) :
  wf fs -> isdir_at fs cur = true -> isdir_at fs (parent cur) = true.
Proof.
  intros [_ Hp] Hd. destruct cur as [|x cur] using rev_ind; [exact Hd|].
  rewrite parent_snoc. apply (Hp cur x).
  unfold isdir_at in Hd. rewrite node_at_snoc in Hd.
  destruct (nodes fs !! (cur ++ [x])); [eauto | discriminate].
Qed.

Lemma wf_add_dir (fs : t) (cur : list string) (name : string) :
  wf fs -> isdir_at fs cur = true -> nodes fs !! (cur ++ [name]) = None ->
  wf (add_dir fs (cur ++ [name])).
Proof.
  intros [Hc Hp] Hd Hn.
  pose proof (grows_add_dir fs _ Hn) as Hg. split.
  - cbn [add_dir cwd]. now apply (grows_isdir fs).
  - intros p n. cbn [add_dir nodes]. intros Hs.
    apply (grows_isdir fs _ _ Hg).
    destruct (decide (cur ++ [name] = p ++ [n])) as [E|Hne].
    + apply app_inj_tail in E as [<- _]. exact Hd.
    + rewrite lookup_insert_ne in Hs by exact Hne. now apply (Hp p n).
Qed.

Lemma makedirs_from_wf (cs : list string) :
  forall fs cur fs' r,
    wf fs -> isdir_at fs cur = true -> makedirs_from fs cur cs = (fs', r) ->
    wf fs' /\ forall d, r = Some d -> isdir_at fs' d = true.
Proof.
  induction cs as [|c cs IH]; intros fs cur fs' r Hwf Hd; cbn [makedirs_from].
  - intros [= <- <-]. split; [exact Hwf|]. now intros d [= <-].
  - destruct (classify c) as [| |name|].
    + now apply IH.
    + apply IH; [exact Hwf | now apply wf_parent].
    + destruct (node_at fs (cur ++ [name])) as [[|content m]|] eqn:Hn.
      * apply IH; [exact Hwf|]. unfold isdir_at. now rewrite Hn.
      * intros [= <- <-]. split; [exact Hwf | discriminate].
      * rewrite node_at_snoc in Hn.
        apply IH; [now apply wf_add_dir | apply isdir_add_dir].
    + intros [= <- <-]. split; [exact Hwf | discriminate].
Qed.

Lemma isdir_root (fs : t) : isdir_at fs [] = true.
Proof. reflexivity. Qed.

Lemma start_isdir (fs : t) (p : string) : wf fs -> isdir_at fs (start fs p) = true.
Proof. intros [Hc _]. unfold start. destruct (Str.startswith "/" p); [reflexivity | exact Hc]. Qed.

End FsFacts.

(** ** Where an upload lands *)

Section Destination.
Import Fs FsFacts.

(** A file name that passed the extension check is not empty, [.] or [..],
    whose extension is empty: it is a name to go down to, when the system
    accepts it. *)
Lemma ext_allowed_classify (f : string) :
  ext_allowed f = true -> classify f = if name_ok f then Down f else Invalid.
Proof.
  intros Ha. unfold classify.
  destruct (String.eqb_spec f "") as [->|_]; [vm_compute in Ha; discriminate|].
  destruct (String.eqb_spec f ".") as [->|_]; [vm_compute in Ha; discriminate|].
  destruct (String.eqb_spec f "..") as [->|_]; [vm_compute in Ha; discriminate|].
  reflexivity.
Qed.

Lemma ext_allowed_down (f : string) :
  ext_allowed f = true -> name_ok f = true -> classify f = Down f.
Proof. intros Ha Hk. now rewrite (ext_allowed_classify f Ha), Hk. Qed.

(** A path that names something fits. *)
Lemma locate_fits (fs : t) (p : string) (q : list string) :
  locate fs p = Some q -> path_fits p = true.
Proof.
  unfold locate. destruct (negb (Str.truthy p)); [discriminate|].
  destruct (path_fits p); [reflexivity | discriminate].
Qed.

(** A path that fits and whose every component walks names the directory
    reached. *)
Lemma locate_walked (fs : t) (p : string) (d : list string) :
  p <> "" -> path_fits p = true ->
  walk fs (start fs p) (components p) = Some d -> isdir_at fs d = true ->
  locate fs p = Some d.
Proof.
  intros Hp Hfit Hw Hd. unfold locate.
  assert (Ht : Str.truthy p = true) by (destruct p; [contradiction | reflexivity]).
  rewrite Ht, Hfit. cbn [negb].
  assert (Hne : components p <> []) by apply split_nonempty.
  rewrite (app_removelast_last "" Hne), walk_app in Hw.
  destruct (walk fs (start fs p) (removelast (components p))) as [d0|]; [|discriminate].
  cbn [mbind option_bind walk] in Hw.
  destruct (classify (List.last (components p) "")) as [| |name|].
  - injection Hw as <-. now rewrite Hd.
  - exact Hw.
  - destruct (isdir_at fs (d0 ++ [name])); [exact Hw | discriminate].
  - discriminate.
Qed.

(** Joining a one-component name to a walked directory path names the node
    of that name in the directory. *)
Lemma locate_join (fs : t) (p f : string) (d : list string) :
  p <> "" -> plain_name f -> classify f = Down f ->
  path_fits (Path.join p f) = true ->
  walk fs (start fs p) (components p) = Some d ->
  locate fs (Path.join p f) = Some (d ++ [f]).
Proof.
  intros Hp Hf Hc Hfit Hw. unfold locate. rewrite Hfit.
  destruct (components_join p f Hp Hf) as (cs & Hj & Hcs & Hs).
  assert (Ht : Str.truthy (Path.join p f) = true).
  { destruct (join_nonempty p f Hp) as [Hn|Hn].
    - destruct (Path.join p f); [contradiction | reflexivity].
    - rewrite plain_name_relative in Hn by exact Hf. discriminate. }
  rewrite Ht. cbn [negb]. rewrite Hj, removelast_last, last_last, Hc.
  unfold start in *. rewrite Hs.
  destruct Hcs as [E|E]; rewrite E in Hw.
  - now rewrite Hw.
  - rewrite walk_trailing_empty in Hw. now rewrite Hw.
Qed.

(** A one-component name that a path reaches is a name the system accepts. *)
Lemma locate_join_accepted (fs : t) (p f : string) (q : list string) :
  p <> "" -> plain_name f -> locate fs (Path.join p f) = Some q -> classify f <> Invalid.
Proof.
  intros Hp Hf Hl Hc. revert Hl. unfold locate.
  destruct (components_join p f Hp Hf) as (cs & Hj & _ & _).
  destruct (negb (Str.truthy (Path.join p f))); [discriminate|].
  destruct (negb (path_fits (Path.join p f))); [discriminate|].
  rewrite Hj, removelast_last, last_last, Hc.
  destruct (walk fs _ cs); discriminate.
Qed.

(** So a name that passed the extension check and was reached is a name to
    go down to. *)
Lemma ext_allowed_located (fs : t) (p f : string) (q : list string) :
  p <> "" -> plain_name f -> ext_allowed f = true ->
  locate fs (Path.join p f) = Some q -> classify f = Down f.
Proof.
  intros Hp Hf He Hl. pose proof (locate_join_accepted fs p f q Hp Hf Hl) as Hc.
  rewrite (ext_allowed_classify f He) in *. destruct (name_ok f); [reflexivity | contradiction].
Qed.

Lemma open_wb_inv (fs fs' : t) (p : string) (now : Z) (q : list string) :
  open_wb fs p now = Some (fs', q) ->
  locate fs p = Some q /\ q <> [] /\ isdir_at fs q = false
  /\ fs' = mk (cwd fs) (<[q := File [] now]> (nodes fs)).
Proof.
  unfold open_wb. destruct (locate fs p) as [q0|]; [|discriminate].
  destruct (node_at fs q0) as [[|c m]|] eqn:Hn; [discriminate| |];
    intros [= <- <-]; (repeat split; [|unfold isdir_at; now rewrite Hn]);
    intros ->; discriminate Hn.
Qed.

Lemma same_dirs_refl (fs : t) : same_dirs fs fs.
Proof. now split. Qed.

Lemma same_dirs_trans (a b c : t) : same_dirs a b -> same_dirs b c -> same_dirs a c.
Proof. intros [C1 D1] [C2 D2]. split; [congruence|]. intros p. now rewrite D2, D1. Qed.

Lemma open_wb_same_dirs (fs fs' : t) (p : string) (now : Z) (q : list string) :
  open_wb fs p now = Some (fs', q) -> same_dirs fs fs'.
Proof.
  intros Ho. apply open_wb_inv in Ho as (_ & Hq & Hd & ->).
  split; [reflexivity|]. intros p'. unfold isdir_at, node_at in *. cbn [nodes].
  destruct p' as [|x p']; [reflexivity|].
  destruct (decide (q = x :: p')) as [->|Hne].
  - rewrite lookup_insert_eq. now rewrite Hd.
  - now rewrite lookup_insert_ne.
Qed.

Lemma write_same_dirs (fs : t) (q : list string) (chunk : list byte) (now : Z) :
  same_dirs fs (write fs q chunk now).
Proof.
  split; [reflexivity|]. intros p. unfold isdir_at, node_at. cbn [write nodes].
  destruct p as [|x p]; [reflexivity|].
  destruct (decide (q = x :: p)) as [->|Hne].
  - rewrite lookup_alter_eq. destruct (nodes fs !! (x :: p)) as [[|c m]|]; reflexivity.
  - now rewrite lookup_alter_ne.
Qed.

Lemma write_other (fs : t) (q p : list string) (chunk : list byte) (now : Z) :
  p <> q -> nodes (write fs q chunk now) !! p = nodes fs !! p.
Proof. intros Hne. cbn [write nodes]. now rewrite lookup_alter_ne. Qed.

Lemma write_file (fs : t) (q : list string) (chunk c : list byte) (now m : Z) :
  nodes fs !! q = Some (File c m) ->
  nodes (write fs q chunk now) !! q = Some (File (c ++ chunk) now).
Proof. intros Hq. cbn [write nodes]. now rewrite lookup_alter_eq, Hq. Qed.

End Destination.

(** ** The hub: what a live connection receives *)

Section HubFacts.

Lemma deliver_fold_open (msg : message) (ws : nat) (l : list nat) :
  forall (inbox : list message) (socks : gmap nat websocket) (dead : list nat),
    NoDup l -> socks !! ws = Some (mk_ws true inbox) -> ws ∉ dead ->
    (foldl (Hub.deliver msg) (socks, dead) l).1 !! ws
    = Some (mk_ws true (if decide (ws ∈ l) then inbox ++ [msg] else inbox))
    /\ ws ∉ (foldl (Hub.deliver msg) (socks, dead) l).2.
Proof.
  induction l as [|x l IH]; intros inbox socks dead Hnd Hs Hd.
  - cbn. split; [exact Hs | exact Hd].
  - apply NoDup_cons in Hnd as [Hx Hnd]. cbn [foldl].
    assert (Hcons : forall a b : list message,
               ws ∈ l -> (if decide (ws ∈ x :: l) then a else b) = a).
    { intros a b Hin. apply decide_True. now apply list_elem_of_further. }
    destruct (decide (x = ws)) as [->|Hne].
    + unfold Hub.deliver at 2 4. rewrite Hs. cbn.
      destruct (IH (inbox ++ [msg]) (<[ws := mk_ws true (inbox ++ [msg])]> socks) dead)
        as [H1 H2]; [exact Hnd | apply lookup_insert_eq | exact Hd |].
      split; [|exact H2]. rewrite H1.
      rewrite (decide_True (P := ws ∈ ws :: l)) by apply list_elem_of_here.
      now rewrite decide_False by exact Hx.
    + assert (Hskip : forall a b : list message,
                 (if decide (ws ∈ x :: l) then a else b)
                 = (if decide (ws ∈ l) then a else b)).
      { intros a b. destruct (decide (ws ∈ l)) as [Hin|Hout]; [now apply Hcons|].
        apply decide_False. intros [->|Hin]%elem_of_cons; [now apply Hne | now apply Hout]. }
      rewrite Hskip. unfold Hub.deliver at 2 4.
      destruct (socks !! x ≫= Hub.send_json msg) as [s|].
      * apply IH; [exact Hnd | now rewrite lookup_insert_ne | exact Hd].
      * apply IH; [exact Hnd | exact Hs |].
        intros [Hin|Hin]%elem_of_app; [now apply Hd|].
        apply list_elem_of_singleton in Hin. now apply Hne.
Qed.

(** A broadcast reaches every open connection of the user's room, and
    leaves it in the room. *)
Lemma broadcast_listening (h : Hub.t) (user : string) (ws : nat)
    (inbox : list message) (msg : message) :
  listening h user ws inbox ->
  listening (Hub.broadcast user msg h) user ws (inbox ++ [msg]).
Proof.
  intros [Hr Hs]. unfold Hub.broadcast.
  destruct (deliver_fold_open msg ws (elements (Hub.room h user)) inbox
              (Hub.sockets h) []) as [H1 H2];
    [apply NoDup_elements | exact Hs | set_solver |].
  destruct (foldl (Hub.deliver msg) (Hub.sockets h, []) (elements (Hub.room h user)))
    as [socks dead].
  cbn [fst snd] in H1, H2. split.
  - unfold Hub.room in *. cbn [Hub.rooms].
    rewrite lookup_alter_eq.
    destruct (Hub.rooms h !! user) as [r|]; cbn in *; [|set_solver].
    apply elem_of_difference. split; [exact Hr|].
    now rewrite elem_of_list_to_set.
  - cbn [Hub.sockets]. rewrite H1.
    rewrite decide_True; [reflexivity|]. now apply elem_of_elements.
Qed.

Lemma broadcast_sent (h : Hub.t) (user : string) (msg : message) :
  Hub.sent (Hub.broadcast user msg h) = Hub.sent h ++ [(user, msg)].
Proof.
  unfold Hub.broadcast.
  destruct (foldl (Hub.deliver msg) (Hub.sockets h, []) (elements (Hub.room h user))).
  reflexivity.
Qed.

End HubFacts.

(** ** The upload loop *)

Section UploadLoop.
Import Fs FsFacts.

Lemma read_app (n : N) (src : list byte) : (read n src).1 ++ (read n src).2 = src.
Proof.
  revert n; induction src as [|b src IH]; intros n; cbn [read]; [reflexivity|].
  destruct (n =? 0)%N; [reflexivity|].
  specialize (IH (N.pred n)). destruct (read (N.pred n) src) as [c r].
  cbn [fst snd app] in *. now rewrite IH.
Qed.

Lemma read_empty (size : N) (src r : list byte) :
  (0 < size)%N -> read size src = ([], r) -> src = [].
Proof.
  intros Hs. destruct src as [|b src]; [reflexivity|]. cbn [read].
  destruct (N.eqb_spec size 0); [lia|].
  destruct (read (N.pred size) src). discriminate.
Qed.

Lemma read_split (size : N) (src chunk rest : list byte) :
  read size src = (chunk, rest) -> src = chunk ++ rest.
Proof. intros E. pose proof (read_app size src) as Ha. now rewrite E in Ha. Qed.

(** The count the loop ends with is the count it started with plus the
    length of the body. *)
Lemma upload_loop_total (size : N) (user : string) (q : list string) (now : Z)
    (src : list byte) (total : Z) (fs : Fs.t) (h : Hub.t) :
  (0 < size)%N ->
  (upload_loop size user q now src total fs h).2 = total + Z.of_nat (length src).
Proof.
  intros Hs. funelim (upload_loop size user q now src total fs h).
  - rewrite (read_empty _ _ _ Hs e). cbn. lia.
  - cbn zeta. rewrite H by exact Hs.
    rewrite (read_split _ _ _ _ E), !length_app. cbn [length]. lia.
Qed.

(** The loop touches the destination only, and appends the body to it. *)
Lemma upload_loop_fs (size : N) (user : string) (q : list string) (now : Z)
    (src : list byte) (total : Z) (fs : Fs.t) (h : Hub.t) :
  (0 < size)%N ->
  let fs' := (upload_loop size user q now src total fs h).1.1 in
  same_dirs fs fs'
  /\ (forall p, p <> q -> nodes fs' !! p = nodes fs !! p)
  /\ (forall c m, nodes fs !! q = Some (File c m) ->
        exists m', nodes fs' !! q = Some (File (c ++ src) m')).
Proof.
  intros Hs. funelim (upload_loop size user q now src total fs h).
  - cbn. rewrite (read_empty _ _ _ Hs e). split; [apply same_dirs_refl|]. split; [reflexivity|].
    intros c m Hq. exists m. now rewrite app_nil_r.
  - cbn zeta. destruct (H Hs) as (Hd & Ho & Hq). split; [|split].
    + eapply same_dirs_trans; [apply write_same_dirs | exact Hd].
    + intros p Hp. rewrite (Ho p Hp). now apply write_other.
    + intros c m Hc. destruct (Hq (c ++ b :: chunk) now) as [m' Hm'].
      * now apply write_file with (m := m).
      * exists m'. rewrite Hm'. rewrite (read_split _ _ _ _ E).
        now rewrite <- app_assoc.
Qed.

(** What the loop broadcasts: one progress event per chunk, with counts
    [vals] that grow up to the final one; every open connection of the
    user's room receives them all, in that order. *)
Lemma upload_loop_hub (size : N) (user : string) (q : list string) (now : Z)
    (src : list byte) (total : Z) (fs : Fs.t) (h : Hub.t) :
  (0 < size)%N ->
  exists vals,
    Hub.sent (upload_loop size user q now src total fs h).1.2
    = Hub.sent h ++ map (fun b => (user, Progress 0 b 0)) vals
    /\ Sorted Z.le vals
    /\ Forall (fun v => total < v <= total + Z.of_nat (length src)) vals
    /\ (src <> [] -> last vals = Some (total + Z.of_nat (length src)))
    /\ (src = [] -> vals = [])
    /\ (forall ws inbox,
          listening h user ws inbox ->
          listening (upload_loop size user q now src total fs h).1.2 user ws
                    (inbox ++ map (fun b => Progress 0 b 0) vals)).
Proof.
  intros Hs. funelim (upload_loop size user q now src total fs h).
  - exists []. cbn [map fst snd]. rewrite app_nil_r, (read_empty _ _ _ Hs e).
    split; [reflexivity|]. split; [constructor|]. split; [constructor|].
    split; [congruence|]. split; [reflexivity|].
    intros ws inbox Hl. now rewrite app_nil_r.
  - cbn zeta.
    set (total' := total + Z.of_nat (length (b :: chunk))) in *.
    destruct (H Hs) as (vals & Hsent & Hsort & Hall & Hlast & Hnil & Hl').
    pose proof (read_split _ _ _ _ E) as Hsrc.
    assert (Hlen : total + Z.of_nat (length src)
                   = total' + Z.of_nat (length rest)).
    { subst total'. rewrite Hsrc, !length_app. lia. }
    assert (Hpos : total < total').
    { subst total'. cbn [length]. lia. }
    exists (total' :: vals). split; [|split; [|split; [|split; [|split]]]].
    + rewrite Hsent, broadcast_sent, <- app_assoc. reflexivity.
    + constructor; [exact Hsort|].
      destruct vals as [|v vals]; constructor.
      apply Forall_cons in Hall as [Hv _]. lia.
    + constructor; [lia|].
      eapply Forall_impl; [exact Hall|]. cbn beta. intros v Hv. lia.
    + intros _. rewrite Hlen. destruct rest as [|r rest].
      * rewrite (Hnil eq_refl). cbn [last length]. f_equal. lia.
      * assert (Hr : r :: rest <> []) by discriminate.
        specialize (Hlast Hr). destruct vals as [|v vals]; [discriminate Hlast|].
        exact Hlast.
    + intros ->. destruct size; [lia|]. discriminate E.
    + intros ws inbox Hl. cbn [map]. 
      specialize (Hl' ws (inbox ++ [Progress 0 total' 0])
                    (broadcast_listening _ _ _ _ _ Hl)).
      now rewrite <- app_assoc in Hl'.
Qed.

End UploadLoop.

(** ** The upload handler, step by step *)

Section UploadAnatomy.
Import Fs FsFacts.

Lemma makedirs_inv (fs fs1 : t) (p : string) (d : list string) :
  makedirs fs p = (fs1, Some d) ->
  p <> "" /\ grows fs fs1 /\ walk fs1 (start fs1 p) (components p) = Some d.
Proof.
  unfold makedirs. destruct p as [|x p]; [discriminate|]. cbn [Str.truthy negb].
  destruct (negb (path_fits (String x p))); [discriminate|].
  intros Hm. split; [discriminate|].
  pose proof (makedirs_from_grows _ _ _ _ _ Hm) as Hg.
  split; [exact Hg|]. apply makedirs_from_walk in Hm.
  unfold start in *. destruct Hg as [-> _]. exact Hm.
Qed.

(** A path whose directories could be made fits. *)
Lemma makedirs_fits (fs fs1 : t) (p : string) (d : list string) :
  makedirs fs p = (fs1, Some d) -> path_fits p = true.
Proof.
  unfold makedirs. destruct (negb (Str.truthy p)); [discriminate|].
  destruct (path_fits p); [reflexivity | discriminate].
Qed.

(** Where the walk of a path that fits succeeds, there is nothing to
    create. *)
Lemma walk_makedirs (fs : t) (p : string) (d : list string) :
  p <> "" -> path_fits p = true ->
  walk fs (start fs p) (components p) = Some d -> makedirs fs p = (fs, Some d).
Proof.
  intros Hp Hfit Hw. unfold makedirs. rewrite Hfit.
  destruct p as [|x p]; [contradiction|]. cbn [Str.truthy negb].
  now apply walk_makedirs_from.
Qed.

Lemma makedirs_grows (fs fs1 : t) (p : string) (r : option (list string)) :
  makedirs fs p = (fs1, r) -> grows fs fs1.
Proof.
  unfold makedirs. destruct (negb (Str.truthy p)).
  - intros [= <- _]. apply grows_refl.
  - destruct (negb (path_fits p)).
    + intros [= <- _]. apply grows_refl.
    + apply makedirs_from_grows.
Qed.

(** Creating the directories a second time changes nothing. *)
Lemma makedirs_again (fs fs1 : t) (p : string) (d : list string) :
  makedirs fs p = (fs1, Some d) -> makedirs fs1 p = (fs1, Some d).
Proof.
  intros Hm. pose proof (makedirs_fits _ _ _ _ Hm) as Hfit.
  apply makedirs_inv in Hm as (Hp & _ & Hw). now apply walk_makedirs.
Qed.

Lemma makedirs_wf (fs fs1 : t) (p : string) (d : list string) :
  wf fs -> makedirs fs p = (fs1, Some d) -> wf fs1 /\ isdir_at fs1 d = true.
Proof.
  intros Hwf. unfold makedirs. destruct (negb (Str.truthy p)); [discriminate|].
  destruct (negb (path_fits p)); [discriminate|].
  intros Hm. destruct (makedirs_from_wf _ _ _ _ _ Hwf (start_isdir fs p Hwf) Hm) as [H1 H2].
  split; [exact H1 | now apply H2].
Qed.

Lemma user_dir_inv (fs fs1 : t) (user p : string) :
  user_dir fs user = (fs1, Some p) ->
  p = Path.join DATA_ROOT user
  /\ exists d, makedirs fs p = (fs1, Some d).
Proof.
  unfold user_dir. destruct (makedirs fs (Path.join DATA_ROOT user)) as [fs' [d|]] eqn:Hm;
    [|discriminate].
  intros [= <- <-]. split; [reflexivity|]. now exists d.
Qed.

Lemma user_dir_grows (fs fs1 : t) (user : string) (r : option string) :
  user_dir fs user = (fs1, r) -> grows fs fs1.
Proof.
  unfold user_dir. destruct (makedirs fs (Path.join DATA_ROOT user)) as [fs' [d|]] eqn:Hm;
    intros [= <- _]; eapply makedirs_grows; exact Hm.
Qed.

(** Everything a successful upload did, in order. *)
Lemma api_upload_ok_inv (now : Z) (user : option string) (file : UploadFile)
    (fs fs' : t) (h h' : Hub.t) (name : string) :
  api_upload now user file fs h = ((fs', h'), UpOk name) ->
  exists u fs1 d fs3 q,
    user = Some u /\ u <> "" /\ name = filename file
    /\ ext_allowed (filename file) = true
    /\ makedirs fs (Path.join DATA_ROOT u) = (fs1, Some d)
    /\ open_wb fs1 (Path.join (Path.join DATA_ROOT u) (filename file)) now = Some (fs3, q)
    /\ fs' = (upload_loop MAX_UPLOAD_CHUNK u q now (body file) 0 fs3 h).1.1
    /\ h' = Hub.broadcast u Refresh
              (upload_loop MAX_UPLOAD_CHUNK u q now (body file) 0 fs3 h).1.2.
Proof.
  unfold api_upload. destruct user as [u|]; [|discriminate].
  destruct (Str.truthy u) eqn:Hu; cbn [negb]; [|discriminate].
  destruct (Str.truthy (filename file)); cbn [negb]; [|discriminate].
  destruct (ext_allowed (filename file)) eqn:He; cbn [negb]; [|discriminate].
  destruct (user_dir fs u) as [fs1 [p|]] eqn:Hud; [|discriminate].
  destruct (user_dir_inv _ _ _ _ Hud) as [-> [d Hm]].
  rewrite (makedirs_again _ _ _ _ Hm).
  destruct (open_wb fs1 _ now) as [[fs3 q]|] eqn:Ho; [|discriminate].
  destruct (upload_loop MAX_UPLOAD_CHUNK u q now (body file) 0 fs3 h) as [[fs4 h4] tot] eqn:Hl.
  intros [= <- <- <-]. exists u, fs1, d, fs3, q. rewrite Hl. cbn [fst snd].
  repeat split; try reflexivity; try assumption.
  intros ->. discriminate Hu.
Qed.

(** The handler returned before touching anything. *)
Ltac refused_early :=
  intros [= <- <- _] _; split; [apply FsFacts.grows_refl | reflexivity].

(** An upload that did not answer 200 wrote into no file. *)
Lemma api_upload_not_ok (now : Z) (user : option string) (file : UploadFile)
    (fs fs' : t) (h h' : Hub.t) (resp : upload_response) :
  api_upload now user file fs h = ((fs', h'), resp) ->
  (forall name, resp <> UpOk name) ->
  grows fs fs' /\ h' = h.
Proof.
  unfold api_upload. destruct user as [u|]; [|refused_early].
  destruct (negb (Str.truthy u)); [refused_early|].
  destruct (negb (Str.truthy (filename file))); [refused_early|].
  destruct (negb (ext_allowed (filename file))); [refused_early|].
  destruct (user_dir fs u) as [fs1 [p|]] eqn:Hud.
  2:{ intros [= <- <- _] _. split; [eapply user_dir_grows; exact Hud | reflexivity]. }
  pose proof (user_dir_grows _ _ _ _ Hud) as Hg1.
  destruct (makedirs fs1 p) as [fs2 [d|]] eqn:Hm.
  2:{ intros [= <- <- _] _. split; [|reflexivity].
      eapply grows_trans; [exact Hg1 | eapply makedirs_grows; exact Hm]. }
  pose proof (makedirs_grows _ _ _ _ Hm) as Hg2.
  destruct (open_wb fs2 _ now) as [[fs3 q]|] eqn:Ho.
  2:{ intros [= <- <- _] _. split; [|reflexivity]. eapply grows_trans; eassumption. }
  destruct (upload_loop MAX_UPLOAD_CHUNK u q now (body file) 0 fs3 h) as [[fs4 h4] tot].
  intros [= _ _ <-] Hno. now destruct (Hno (filename file)).
Qed.

Lemma max_chunk_positive : (0 < MAX_UPLOAD_CHUNK)%N.
Proof. reflexivity. Qed.

(** After a successful upload the destination holds the body, and no other
    node differs from what the directory creation left. *)
Lemma api_upload_ok_fs (now : Z) (u : string) (file : UploadFile)
    (fs1 fs3 : t) (h : Hub.t) (q : list string) (p : string) :
  open_wb fs1 p now = Some (fs3, q) ->
  let fs' := (upload_loop MAX_UPLOAD_CHUNK u q now (body file) 0 fs3 h).1.1 in
  same_dirs fs1 fs'
  /\ (forall p', p' <> q -> nodes fs' !! p' = nodes fs1 !! p')
  /\ exists m, nodes fs' !! q = Some (File (body file) m).
Proof.
  intros Ho fs'.
  destruct (upload_loop_fs MAX_UPLOAD_CHUNK u q now (body file) 0 fs3 h max_chunk_positive)
    as (Hd & Hother & Hq).
  fold fs' in Hd, Hother, Hq.
  pose proof (open_wb_same_dirs _ _ _ _ _ Ho) as Hd0.
  apply open_wb_inv in Ho as (_ & _ & _ & ->).
  split; [eapply same_dirs_trans; eassumption|]. split.
  - intros p' Hp'. rewrite (Hother p' Hp'). cbn [nodes]. now rewrite lookup_insert_ne.
  - destruct (Hq [] now) as [m Hm]; [cbn [nodes]; apply lookup_insert_eq|].
    now exists m.
Qed.

Lemma content_at_other (fs fs' : t) (q : list string) :
  (forall p, p <> q -> nodes fs' !! p = nodes fs !! p) ->
  forall p, p <> q -> content_at fs' p = content_at fs p.
Proof.
  intros Ho p Hp. unfold content_at, node_at.
  destruct p as [|x p]; [reflexivity|]. now rewrite (Ho _ Hp).
Qed.

End UploadAnatomy.

(** ** Uploads: where the bytes go *)

Section UploadPlace.
Import Fs FsFacts.

(** The destination of a successful upload under a one-component name is
    the node of that name in the user's directory. *)
Lemma upload_destination (fs fs1 fs3 : t) (u f : string) (d q : list string) (now : Z) :
  u <> "" -> plain_name f -> ext_allowed f = true ->
  makedirs fs (Path.join DATA_ROOT u) = (fs1, Some d) ->
  open_wb fs1 (Path.join (Path.join DATA_ROOT u) f) now = Some (fs3, q) ->
  q = d ++ [f].
Proof.
  intros Hu Hf He Hm Ho.
  apply makedirs_inv in Hm as (Hp & _ & Hw).
  apply open_wb_inv in Ho as (Hl & _).
  rewrite (locate_join fs1 _ f d Hp Hf (ext_allowed_located _ _ _ _ Hp Hf He Hl)
             (locate_fits _ _ _ Hl) Hw) in Hl.
  now injection Hl.
Qed.

(** The handler never looks at the components of the name: a name whose
    extension is allowed is answered 200, or 500 when an OS call raised. *)
Lemma api_upload_no_name_check (now : Z) (u : string) (file : UploadFile)
    (fs : t) (h : Hub.t) :
  u <> "" -> ext_allowed (filename file) = true ->
  (api_upload now (Some u) file fs h).2 = UpOk (filename file)
  \/ (api_upload now (Some u) file fs h).2 = UpError.
Proof.
  intros Hu He. unfold api_upload.
  assert (Ht : Str.truthy u = true) by (destruct u; [contradiction | reflexivity]).
  assert (Hf : Str.truthy (filename file) = true).
  { destruct (filename file); [vm_compute in He; discriminate | reflexivity]. }
  rewrite Ht, Hf, He. cbn [negb].
  destruct (user_dir fs u) as [fs1 [p|]]; [|now right].
  destruct (makedirs fs1 p) as [fs2 [d|]]; [|now right].
  destruct (open_wb fs2 _ now) as [[fs3 q]|]; [|now right].
  destruct (upload_loop MAX_UPLOAD_CHUNK u q now (body file) 0 fs3 h) as [[fs4 h4] tot].
  now left.
Qed.

(** C1, as the code has it. The handler has no check of the name's
    components: the only file whose content an upload changes is the node
    that [os.path.join(user_dir(user), filename)] names, wherever that is.
    For a file name without a separator it is the node of that name in the
    requesting user's own directory [d], the directory that [user_dir]
    creates and names. *)
Theorem upload_changes_only_joined_path (now : Z) (user : option string)
    (file : UploadFile) (fs : t) (h : Hub.t) (p : list string) :
  content_at (api_upload now user file fs h).1.1 p <> content_at fs p ->
  exists u fs1 d,
    user = Some u
    /\ makedirs fs (Path.join DATA_ROOT u) = (fs1, Some d)
    /\ locate fs1 (Path.join (Path.join DATA_ROOT u) (filename file)) = Some p
    /\ (plain_name (filename file) -> p = d ++ [filename file] /\ inside d p).
Proof.
  intros Hp.
  destruct (api_upload now user file fs h) as [[fs' h'] resp] eqn:E. cbn [fst] in Hp.
  assert (Hbad : (forall name, resp <> UpOk name) -> False).
  { intros Hno. destruct (api_upload_not_ok _ _ _ _ _ _ _ _ E Hno) as [Hg _].
    apply Hp. now apply grows_content. }
  destruct resp as [| | |name|]; try (exfalso; apply Hbad; discriminate).
  destruct (api_upload_ok_inv _ _ _ _ _ _ _ _ E)
    as (u & fs1 & d & fs3 & q & -> & Hu & -> & He & Hm & Ho & -> & _).
  destruct (api_upload_ok_fs now u file fs1 fs3 h _ _ Ho) as (_ & Hother & _).
  assert (Hq : p = q).
  { destruct (decide (p = q)) as [|Hne]; [assumption|].
    exfalso. apply Hp.
    rewrite (content_at_other _ _ _ Hother p Hne).
    apply grows_content. eapply makedirs_grows; exact Hm. }
  subst q. exists u, fs1, d.
  split; [reflexivity|]. split; [exact Hm|]. split.
  - now apply open_wb_inv in Ho as (Hl & _).
  - intros Hf.
    pose proof (upload_destination _ _ _ _ _ _ _ _ Hu Hf He Hm Ho) as Hd.
    split; [exact Hd|]. exists [filename file]. split; [discriminate | exact Hd].
Qed.

End UploadPlace.

(** ** Uploads: progress events *)

Lemma progress_bytes_map (vals : list Z) :
  progress_bytes (map (fun b => Progress 0 b 0) vals) = vals.
Proof.
  unfold progress_bytes. induction vals as [|v vals IH]; cbn; [reflexivity | now f_equal].
Qed.

(** C7. A successful upload broadcasts to the user's room the progress
    events [evs], in this order, and then the refresh event, and nothing
    else. The byte counts of [evs] never decrease; the last one is the
    number of bytes of the body, all of which are then in the destination
    [q], the one file the upload changed. An empty body broadcasts no
    progress event. Every open connection of the user receives exactly
    these events, in the same order. *)
Theorem upload_progress_monotone (now : Z) (u : string) (file : UploadFile)
    (fs fs' : Fs.t) (h h' : Hub.t) (name : string) :
  api_upload now (Some u) file fs h = ((fs', h'), UpOk name) ->
  exists evs q,
    Hub.sent h' = Hub.sent h ++ map (pair u) (evs ++ [Refresh])
    /\ Forall (fun m => m <> Refresh) evs
    /\ Sorted Z.le (progress_bytes evs)
    /\ Fs.content_at fs' q = Some (body file)
    /\ (forall p, Fs.content_at fs' p <> Fs.content_at fs p -> p = q)
    /\ (body file <> [] ->
        last (progress_bytes evs) = Some (Z.of_nat (length (body file))))
    /\ (body file = [] -> evs = [])
    /\ (forall ws inbox,
          listening h u ws inbox -> listening h' u ws (inbox ++ evs ++ [Refresh])).
Proof.
  intros E.
  destruct (api_upload_ok_inv _ _ _ _ _ _ _ _ E)
    as (u' & fs1 & d & fs3 & q & [= <-] & Hu & -> & He & Hm & Ho & -> & ->).
  destruct (upload_loop_hub MAX_UPLOAD_CHUNK u q now (body file) 0 fs3 h
              max_chunk_positive)
    as (vals & Hsent & Hsort & _ & Hlast & Hnil & Hl').
  destruct (api_upload_ok_fs now u file fs1 fs3 h _ _ Ho) as (_ & Hother & [m Hq]).
  pose proof Ho as Ho'. apply open_wb_inv in Ho' as (_ & Hne & _).
  exists (map (fun b => Progress 0 b 0) vals), q.
  rewrite progress_bytes_map.
  split; [|split; [|split; [|split; [|split; [|split; [|split]]]]]].
  - rewrite broadcast_sent, Hsent, map_app, map_map, <- app_assoc. reflexivity.
  - apply Forall_forall. intros x [v [-> _]]%list_elem_of_fmap. discriminate.
  - exact Hsort.
  - unfold Fs.content_at, Fs.node_at. destruct q as [|x q]; [contradiction|].
    now rewrite Hq.
  - intros p Hp. destruct (decide (p = q)) as [|Hpq]; [assumption|].
    exfalso. apply Hp. rewrite (content_at_other _ _ _ Hother p Hpq).
    apply FsFacts.grows_content. eapply makedirs_grows; exact Hm.
  - intros Hb. rewrite (Hlast Hb). now rewrite Z.add_0_l.
  - intros Hb. now rewrite (Hnil Hb).
  - intros ws inbox Hl. rewrite app_assoc.
    now apply broadcast_listening, Hl'.
Qed.

(** ** Uploads: the extension check *)

Section Extension.
Import Fs FsFacts.

Lemma code_bounds (c : ascii) : 0 <= Str.code c < 256.
Proof. unfold Str.code. pose proof (N_ascii_bounded c). lia. Qed.

Lemma chr_code (c : ascii) : Str.chr (Str.code c) = c.
Proof. unfold Str.chr, Str.code. rewrite N2Z.id. apply ascii_N_embedding. Qed.

Lemma code_inj (c d : ascii) : Str.code c = Str.code d -> c = d.
Proof. intros E. rewrite <- (chr_code c), <- (chr_code d). now rewrite E. Qed.

Lemma code_chr (n : Z) : 0 <= n < 256 -> Str.code (Str.chr n) = n.
Proof.
  intros Hn. unfold Str.chr, Str.code.
  rewrite N_ascii_embedding by lia. lia.
Qed.

(** A capital letter is moved by [lower]. *)
Lemma lower_char_fixed (d : ascii) :
  Str.lower_char d = d -> ~ (65 <= Str.code d <= 90).
Proof.
  unfold Str.lower_char. intros E Hd.
  replace ((65 <=? Str.code d) && (Str.code d <=? 90)) with true in E by lia.
  cbn [orb] in E. apply (f_equal Str.code) in E.
  rewrite code_chr in E by lia. lia.
Qed.

Lemma same_letter_lower (c d : ascii) :
  same_letter c d = true -> Str.lower_char d = d -> Str.lower_char c = d.
Proof.
  unfold same_letter, capital_of. intros Hs Hd.
  destruct (Ascii.eqb_spec c d) as [->|_]; [exact Hd|]. cbn [orb] in Hs.
  pose proof (lower_char_fixed d Hd) as Hnd.
  apply orb_true_iff in Hs as [Hs|Hs].
  - assert (Hc : 97 <= Str.code d <= 122 /\ Str.code c = Str.code d - 32) by lia.
    unfold Str.lower_char.
    replace ((65 <=? Str.code c) && (Str.code c <=? 90)) with true by lia.
    cbn [orb]. replace (Str.code c + 32) with (Str.code d) by lia. apply chr_code.
  - exfalso. apply Hnd. lia.
Qed.

Lemma differs_only_in_case_lower (e : string) :
  forall a, differs_only_in_case e a = true -> Str.lower a = a -> Str.lower e = a.
Proof.
  induction e as [|c e IH]; intros [|d a]; cbn [differs_only_in_case Str.lower];
    try discriminate; [reflexivity|].
  intros [Hc He]%andb_true_iff [= Hd Ha].
  now rewrite (same_letter_lower c d Hc Hd), (IH a He Ha).
Qed.

Lemma allowed_exts_lowercase (a : string) : a ∈ ALLOWED_EXTS -> Str.lower a = a.
Proof.
  unfold ALLOWED_EXTS. rewrite !elem_of_cons, elem_of_nil.
  intros [->|[->|[->|[]]]]; reflexivity.
Qed.

(** A name whose extension is an allowed one up to letter case passes. *)
Lemma ext_allowed_case (f a : string) :
  a ∈ ALLOWED_EXTS -> differs_only_in_case (Path.splitext f).2 a = true ->
  ext_allowed f = true.
Proof.
  intros Ha Hc. unfold ext_allowed, upload_ext.
  rewrite (differs_only_in_case_lower _ a Hc (allowed_exts_lowercase a Ha)).
  now apply bool_decide_eq_true.
Qed.

(** An upload with nothing in the way of its destination is answered 200,
    under a name that the system accepts. *)
Lemma api_upload_answers_ok (now : Z) (u : string) (file : UploadFile)
    (fs fs1 : t) (h : Hub.t) (d : list string) :
  u <> "" -> ext_allowed (filename file) = true -> plain_name (filename file) ->
  name_ok (filename file) = true ->
  path_fits (Path.join (Path.join DATA_ROOT u) (filename file)) = true ->
  makedirs fs (Path.join DATA_ROOT u) = (fs1, Some d) ->
  isdir_at fs1 (d ++ [filename file]) = false ->
  (api_upload now (Some u) file fs h).2 = UpOk (filename file).
Proof.
  intros Hu He Hf Hk Hfit Hm Hd.
  destruct (api_upload_no_name_check now u file fs h Hu He) as [|Herr]; [assumption|].
  exfalso. revert Herr. unfold api_upload.
  assert (Ht : Str.truthy u = true) by (destruct u; [contradiction | reflexivity]).
  assert (Hn : Str.truthy (filename file) = true).
  { destruct (filename file); [vm_compute in He; discriminate | reflexivity]. }
  rewrite Ht, Hn, He. cbn [negb].
  unfold user_dir. rewrite Hm, (makedirs_again _ _ _ _ Hm).
  pose proof Hm as Hm'. apply makedirs_inv in Hm' as (Hp & _ & Hw).
  unfold open_wb.
  rewrite (locate_join fs1 _ _ d Hp Hf (ext_allowed_down _ He Hk) Hfit Hw).
  unfold isdir_at in Hd.
  destruct (node_at fs1 (d ++ [filename file])) as [[|c m]|]; [discriminate Hd| |];
    destruct (upload_loop MAX_UPLOAD_CHUNK u _ now (body file) 0 _ h) as [[fs4 h4] tot];
    discriminate.
Qed.

(** And then the file of that name in the user's directory holds the
    body. *)
Lemma api_upload_succeeds (now : Z) (u : string) (file : UploadFile)
    (fs fs1 : t) (h : Hub.t) (d : list string) :
  u <> "" -> ext_allowed (filename file) = true -> plain_name (filename file) ->
  name_ok (filename file) = true ->
  path_fits (Path.join (Path.join DATA_ROOT u) (filename file)) = true ->
  makedirs fs (Path.join DATA_ROOT u) = (fs1, Some d) ->
  isdir_at fs1 (d ++ [filename file]) = false ->
  (api_upload now (Some u) file fs h).2 = UpOk (filename file)
  /\ content_at (api_upload now (Some u) file fs h).1.1 (d ++ [filename file])
     = Some (body file).
Proof.
  intros Hu He Hf Hk Hfit Hm Hd.
  pose proof (api_upload_answers_ok now u file fs fs1 h d Hu He Hf Hk Hfit Hm Hd) as Hok.
  split; [exact Hok|].
  destruct (api_upload now (Some u) file fs h) as [[fs' h'] r] eqn:E.
  cbn [fst snd] in *. subst r.
  destruct (api_upload_ok_inv _ _ _ _ _ _ _ _ E)
    as (u' & fs1' & d' & fs3 & q & [= <-] & _ & _ & _ & Hm' & Ho & -> & _).
  rewrite Hm in Hm'. injection Hm' as <- <-.
  pose proof (upload_destination _ _ _ _ _ _ _ _ Hu Hf He Hm Ho) as ->.
  destruct (api_upload_ok_fs now u file fs1 fs3 h _ _ Ho) as (_ & _ & [m Hq]).
  unfold content_at. now rewrite node_at_snoc, Hq.
Qed.

(** C10. A file name whose extension differs from an allowed one in letter
    case only passes the extension check: the upload is answered 200, or 500
    when an OS call raised, never 400; and it is answered 200, with the
    body stored under that name in the user's directory, whenever that
    directory is there and the name is free of separators, is one the
    system accepts (no NUL, at most [NAME_MAX] bytes, the whole path below
    [PATH_MAX]) and is not that of a directory in it. *)
Theorem upload_extension_case_insensitive (now : Z) (u : string) (file : UploadFile)
    (fs : t) (h : Hub.t) (a : string) :
  u <> "" ->
  a ∈ ALLOWED_EXTS ->
  differs_only_in_case (Path.splitext (filename file)).2 a = true ->
  upload_ext (filename file) = a
  /\ ((api_upload now (Some u) file fs h).2 = UpOk (filename file)
      \/ (api_upload now (Some u) file fs h).2 = UpError)
  /\ (forall d,
        plain_name (filename file) ->
        name_ok (filename file) = true ->
        path_fits (Path.join (Path.join DATA_ROOT u) (filename file)) = true ->
        makedirs fs (Path.join DATA_ROOT u) = (fs, Some d) ->
        isdir_at fs (d ++ [filename file]) = false ->
        (api_upload now (Some u) file fs h).2 = UpOk (filename file)
        /\ content_at (api_upload now (Some u) file fs h).1.1 (d ++ [filename file])
           = Some (body file)).
Proof.
  intros Hu Ha Hc.
  pose proof (ext_allowed_case _ a Ha Hc) as He.
  split; [|split].
  - unfold upload_ext.
    apply (differs_only_in_case_lower _ a Hc (allowed_exts_lowercase a Ha)).
  - now apply api_upload_no_name_check.
  - intros d Hf Hk Hl Hm Hd. now apply (api_upload_succeeds now u file fs fs h d).
Qed.

End Extension.

(** ** Uploads: the listing afterwards *)

Section Listing.
Import Fs FsFacts.

Lemma child_name_snoc (d : list string) (n : string) : child_name d (d ++ [n]) = Some n.
Proof.
  induction d as [|x d IH]; cbn [child_name app]; [reflexivity|].
  now rewrite String.eqb_refl.
Qed.

(** A regular file directly in the user's directory is listed with its
    size. *)
Lemma list_user_files_has (fs : t) (u f : string) (d : list string)
    (c : list byte) (m : Z) :
  plain_name f -> classify f = Down f ->
  Path.join DATA_ROOT u <> "" ->
  path_fits (Path.join DATA_ROOT u) = true ->
  path_fits (Path.join (Path.join DATA_ROOT u) f) = true ->
  walk fs (start fs (Path.join DATA_ROOT u)) (components (Path.join DATA_ROOT u)) = Some d ->
  isdir_at fs d = true ->
  nodes fs !! (d ++ [f]) = Some (File c m) ->
  exists entries,
    list_user_files fs u = (fs, Some entries)
    /\ mk_entry f (Z.of_nat (length c)) m ∈ entries.
Proof.
  intros Hf Hc Hp Hfit Hfit' Hw Hd Hn.
  set (p := Path.join DATA_ROOT u) in *.
  assert (Hm : makedirs fs p = (fs, Some d)) by now apply walk_makedirs.
  unfold list_user_files, user_dir. fold p. rewrite Hm.
  unfold listdir. rewrite (locate_walked fs p d Hp Hfit Hw Hd), Hd.
  eexists. split; [reflexivity|].
  apply list_elem_of_omap. exists f. split.
  - rewrite merge_sort_Permutation. apply list_elem_of_omap.
    exists (d ++ [f], File c m). split.
    + now apply elem_of_map_to_list.
    + apply child_name_snoc.
  - unfold list_entry, isfile, stat.
    rewrite (locate_join fs p f d Hp Hf Hc Hfit' Hw).
    unfold isfile_at. rewrite node_at_snoc, Hn. reflexivity.
Qed.

(** C6, as the code has it. For an authenticated user and a named file:
    a name whose extension is not allowed is answered 400 and nothing
    changes; a name whose extension is allowed is never answered 400 (the
    answer is 200, or 500 when an OS call raised). When such a name has no
    separator, the upload is answered 200 and the body is stored under the
    name in the user's directory as soon as the system accepts the name (no
    NUL, at most [NAME_MAX] bytes, the whole path below [PATH_MAX]), the
    user's directory is there and the name is not that of a directory in
    it; and after a 200 the user's listing holds the name with the size of
    the body. *)
Theorem upload_extension_gate (now : Z) (u : string) (file : UploadFile)
    (fs : t) (h : Hub.t) :
  u <> "" -> filename file <> "" ->
  (ext_allowed (filename file) = false ->
     api_upload now (Some u) file fs h = ((fs, h), UpUnsupported))
  /\ (ext_allowed (filename file) = true ->
        ((api_upload now (Some u) file fs h).2 = UpOk (filename file)
         \/ (api_upload now (Some u) file fs h).2 = UpError)
        /\ (forall d,
              plain_name (filename file) ->
              name_ok (filename file) = true ->
              path_fits (Path.join (Path.join DATA_ROOT u) (filename file)) = true ->
              makedirs fs (Path.join DATA_ROOT u) = (fs, Some d) ->
              isdir_at fs (d ++ [filename file]) = false ->
              (api_upload now (Some u) file fs h).2 = UpOk (filename file)
              /\ content_at (api_upload now (Some u) file fs h).1.1 (d ++ [filename file])
                 = Some (body file))
        /\ (plain_name (filename file) -> wf fs ->
            forall fs' h',
              api_upload now (Some u) file fs h = ((fs', h'), UpOk (filename file)) ->
              exists entries m,
                list_user_files fs' u = (fs', Some entries)
                /\ mk_entry (filename file) (Z.of_nat (length (body file))) m ∈ entries)).
Proof.
  intros Hu Hn.
  assert (Ht : Str.truthy u = true) by (destruct u; [contradiction | reflexivity]).
  assert (Hnt : Str.truthy (filename file) = true)
    by (destruct (filename file); [contradiction | reflexivity]).
  split.
  - intros He. unfold api_upload. now rewrite Ht, Hnt, He.
  - intros He. split; [now apply api_upload_no_name_check|].
    split; [intros d Hf Hk Hl Hm Hd;
            now apply (api_upload_succeeds now u file fs fs h d)|].
    intros Hf Hwf fs' h' E.
    destruct (api_upload_ok_inv _ _ _ _ _ _ _ _ E)
      as (u' & fs1 & d & fs3 & q & [= <-] & _ & _ & _ & Hm & Ho & -> & _).
    pose proof (upload_destination _ _ _ _ _ _ _ _ Hu Hf He Hm Ho) as ->.
    pose proof (makedirs_fits _ _ _ _ Hm) as Hfit.
    pose proof (locate_fits _ _ _ (proj1 (open_wb_inv _ _ _ _ _ Ho))) as Hfit'.
    assert (Hdown : classify (filename file) = Down (filename file)).
    { pose proof (makedirs_inv _ _ _ _ Hm) as (Hp' & _ & _).
      pose proof (open_wb_inv _ _ _ _ _ Ho) as (Hl' & _).
      exact (ext_allowed_located _ _ _ _ Hp' Hf He Hl'). }
    destruct (api_upload_ok_fs now u file fs1 fs3 h _ _ Ho) as (Hsd & _ & [m Hq]).
    destruct (makedirs_wf _ _ _ _ Hwf Hm) as [_ Hd].
    apply makedirs_inv in Hm as (Hp & _ & Hw).
    set (fs4 := (upload_loop MAX_UPLOAD_CHUNK u (d ++ [filename file]) now
                   (body file) 0 fs3 h).1.1) in *.
    destruct (list_user_files_has fs4 u (filename file) d (body file) m)
      as (entries & Hl & Hin); try assumption.
    + rewrite (walk_same_dirs fs1 fs4 _ Hsd). unfold start in *.
      destruct Hsd as [-> _]. exact Hw.
    + destruct Hsd as [_ ->]. exact Hd.
    + now exists entries, m.
Qed.

End Listing.

(** ** Registration *)

Section Registration.
Context `{Platform}.

Lemma quota_of_commit (now : Z) (salt ip username password : string) (d : Db) (ip' : string) :
  quota_of (register_commit now salt ip username password d) ip'
  = quota_of d ip' + (if String.eqb ip ip' then 1 else 0).
Proof.
  unfold quota_of, register_commit. cbn [ip_quota].
  destruct (String.eqb_spec ip ip') as [<-|Hne].
  - destruct (ip_quota d !! ip) as [n|] eqn:Hq.
    + rewrite lookup_alter_eq, Hq. reflexivity.
    + rewrite lookup_insert_eq. reflexivity.
  - destruct (ip_quota d !! ip) as [n|] eqn:Hq.
    + rewrite lookup_alter_ne by exact Hne. lia.
    + rewrite lookup_insert_ne by exact Hne. lia.
Qed.

Lemma truthy_spec (s : string) : Str.truthy s = true <-> s <> "".
Proof. destruct s; cbn; split; congruence. Qed.

Lemma truthy_false (s : string) : Str.truthy s = false <-> s = "".
Proof. destruct s; cbn; split; congruence. Qed.

(** Past the check for missing fields, up to the quota test: the connection
    is opened, the (empty) commit done, the count of [ip] read. *)
Ltac enter_register Hu Hp d ip :=
  unfold api_register;
  apply truthy_spec in Hu, Hp; rewrite Hu, Hp; cbn [negb orb];
  unfold Sql.select_quota, Sql.commit, Sql.db, Sql.close; cbn [pending committed];
  fold (quota_of d ip).

(** The handler, case by case. *)
Lemma api_register_missing (now : Z) (salt ip : string) (bu bp : option string)
    (d : Db) (fs : Fs.t) :
  Str.strip (or_empty bu) = "" \/ or_empty bp = "" ->
  api_register now salt ip bu bp d fs = ((d, fs), RegMissing).
Proof.
  intros Hm. unfold api_register.
  destruct Hm as [E|E]; apply truthy_false in E; rewrite E; cbn [negb orb];
    [reflexivity | now rewrite orb_true_r].
Qed.

Lemma api_register_over_quota (now : Z) (salt ip : string) (bu bp : option string)
    (d : Db) (fs : Fs.t) :
  Str.strip (or_empty bu) <> "" -> or_empty bp <> "" ->
  2 <= quota_of d ip ->
  api_register now salt ip bu bp d fs = ((d, fs), RegQuotaExceeded).
Proof.
  intros Hu Hp Hq. enter_register Hu Hp d ip. destruct (Z.leb_spec 2 (quota_of d ip)); [reflexivity | lia].
Qed.

Lemma api_register_duplicate (now : Z) (salt ip : string) (bu bp : option string)
    (d : Db) (fs : Fs.t) (row : user_row) :
  Str.strip (or_empty bu) <> "" -> or_empty bp <> "" ->
  quota_of d ip < 2 ->
  users d !! Str.strip (or_empty bu) = Some row ->
  api_register now salt ip bu bp d fs = ((d, fs), RegDuplicate).
Proof.
  intros Hu Hp Hq Hrow. enter_register Hu Hp d ip. destruct (Z.leb_spec 2 (quota_of d ip)); [lia|].
  unfold Sql.insert_user. cbn [pending]. rewrite Hrow. reflexivity.
Qed.

Lemma api_register_commits (now : Z) (salt ip : string) (bu bp : option string)
    (d : Db) (fs : Fs.t) :
  Str.strip (or_empty bu) <> "" -> or_empty bp <> "" ->
  quota_of d ip < 2 ->
  users d !! Str.strip (or_empty bu) = None ->
  exists fs' resp,
    api_register now salt ip bu bp d fs
    = ((register_commit now salt ip (Str.strip (or_empty bu)) (or_empty bp) d, fs'), resp)
    /\ created resp = true
    /\ (is_Some (user_dir fs (Str.strip (or_empty bu))).2 ->
        resp = RegOk (create_jwt now (Str.strip (or_empty bu)))).
Proof.
  intros Hu Hp Hq Hfree. enter_register Hu Hp d ip. destruct (Z.leb_spec 2 (quota_of d ip)); [lia|].
  unfold Sql.insert_user. cbn [pending]. rewrite Hfree.
  cbn [mbind sql_result_bind Sql.bind].
  set (username := Str.strip (or_empty bu)). set (password := or_empty bp).
  assert (Hc : (c2 ← (if ip_quota d !! ip is Some _
                      then Sql.bump_quota ip
                             (Sql.on_pending
                                (fun d0 => mk_db (<[username := mk_user (pbkdf2_sha256_hash salt password) now]> (users d0))
                                            (qr_tokens d0) (ip_quota d0)) (mk_conn d d))
                      else Sql.insert_quota ip
                             (Sql.on_pending
                                (fun d0 => mk_db (<[username := mk_user (pbkdf2_sha256_hash salt password) now]> (users d0))
                                            (qr_tokens d0) (ip_quota d0)) (mk_conn d d)));
                Sql.Done (mk_conn (pending c2) (pending c2)))
               = Sql.Done (mk_conn (register_commit now salt ip username password d)
                                   (register_commit now salt ip username password d))).
  { unfold register_commit. destruct (ip_quota d !! ip) as [n|] eqn:Hrow.
    - reflexivity.
    - unfold Sql.insert_quota, Sql.on_pending. cbn [pending ip_quota]. rewrite Hrow.
      reflexivity. }
  rewrite Hc. cbn [committed].
  destruct (user_dir fs username) as [fs1 [p|]] eqn:Hud.
  - destruct (user_dir_inv _ _ _ _ Hud) as [-> [dd Hm]].
    rewrite (makedirs_again _ _ _ _ Hm).
    exists fs1, (RegOk (create_jwt now username)). repeat split.
  - exists fs1, RegError. repeat split. cbn. intros [x Hx]. discriminate Hx.
Qed.

(** C9. A registration answered 409 leaves the database as it was, and with
    it the count of every address; the user row and the count change only
    together, when the account is created. *)
Theorem api_register_duplicate_keeps_quota (now : Z) (salt ip : string)
    (bu bp : option string) (d : Db) (fs : Fs.t) :
  let st := (api_register now salt ip bu bp d fs).1 in
  let resp := (api_register now salt ip bu bp d fs).2 in
  (resp = RegDuplicate ->
     st = (d, fs)
     /\ is_Some (users d !! Str.strip (or_empty bu))
     /\ forall ip', quota_of st.1 ip' = quota_of d ip')
  /\ (created resp = true ->
        users d !! Str.strip (or_empty bu) = None
        /\ is_Some (users st.1 !! Str.strip (or_empty bu))
        /\ quota_of st.1 ip = quota_of d ip + 1)
  /\ (created resp = false -> st.1 = d).
Proof.
  cbn zeta.
  destruct (decide (Str.strip (or_empty bu) = "" \/ or_empty bp = "")) as [Hm|Hm].
  { rewrite (api_register_missing _ _ _ _ _ _ _ Hm). cbn.
    repeat split; discriminate. }
  assert (Hu : Str.strip (or_empty bu) <> "") by tauto.
  assert (Hp : or_empty bp <> "") by tauto.
  destruct (Z.le_gt_cases 2 (quota_of d ip)) as [Hq|Hq].
  { rewrite (api_register_over_quota _ _ _ _ _ _ _ Hu Hp Hq). cbn.
    repeat split; discriminate. }
  destruct (users d !! Str.strip (or_empty bu)) as [row|] eqn:Hrow.
  { rewrite (api_register_duplicate _ _ _ _ _ _ _ _ Hu Hp Hq Hrow). cbn.
    repeat split; try discriminate. eauto. }
  destruct (api_register_commits now salt ip bu bp d fs Hu Hp Hq Hrow)
    as (fs' & resp & -> & Hc & _).
  cbn [fst snd]. split; [|split].
  - intros ->. discriminate Hc.
  - intros _. split; [reflexivity|]. split.
    + unfold register_commit. cbn [users]. rewrite lookup_insert_eq. eauto.
    + rewrite quota_of_commit, String.eqb_refl. reflexivity.
  - intros Hn. rewrite Hc in Hn. discriminate Hn.
Qed.

End Registration.

(** ** Registration: the quota over a history *)

Section Quota.
Context `{Platform}.

(** One request moves the count of its own address by one exactly when it
    creates an account, which it does only below the cap. *)
Lemma register_step_quota (st : Db * Fs.t) (r : register_request) (ip : string) :
  quota_of (register_step st r).1.1 ip
  = quota_of st.1 ip
    + (if String.eqb (rq_ip r) ip && created (register_step st r).2 then 1 else 0)
  /\ (created (register_step st r).2 = true -> quota_of st.1 (rq_ip r) < 2).
Proof.
  unfold register_step. destruct st as [d fs]. cbn [fst snd].
  destruct (decide (Str.strip (or_empty (rq_username r)) = ""
                    \/ or_empty (rq_password r) = "")) as [Hm|Hm].
  { rewrite (api_register_missing _ _ _ _ _ _ _ Hm). cbn.
    rewrite andb_false_r. split; [lia | discriminate]. }
  assert (Hu : Str.strip (or_empty (rq_username r)) <> "") by tauto.
  assert (Hp : or_empty (rq_password r) <> "") by tauto.
  destruct (Z.le_gt_cases 2 (quota_of d (rq_ip r))) as [Hq|Hq].
  { rewrite (api_register_over_quota _ _ _ _ _ _ _ Hu Hp Hq). cbn.
    rewrite andb_false_r. split; [lia | discriminate]. }
  destruct (users d !! Str.strip (or_empty (rq_username r))) as [row|] eqn:Hrow.
  { rewrite (api_register_duplicate _ _ _ _ _ _ _ _ Hu Hp Hq Hrow). cbn.
    rewrite andb_false_r. split; [lia | discriminate]. }
  destruct (api_register_commits (rq_now r) (rq_salt r) (rq_ip r) _ _ d fs Hu Hp Hq Hrow)
    as (fs' & resp & -> & Hc & _).
  cbn [fst snd]. rewrite Hc, andb_true_r, quota_of_commit. split; [reflexivity | intros _; exact Hq].
Qed.

Lemma run_register_cons (st : Db * Fs.t) (r : register_request) (rs : list register_request) :
  run_register st (r :: rs)
  = ((run_register (register_step st r).1 rs).1,
     (register_step st r).2 :: (run_register (register_step st r).1 rs).2).
Proof.
  cbn [run_register]. destruct (register_step st r) as [st1 resp]. cbn [fst snd].
  destruct (run_register st1 rs) as [st2 resps]. reflexivity.
Qed.



End Quota.

(** * The properties on concrete requests *)

Example fs0_wf : Fs.wf fs0.
Proof.
  split; [vm_compute; reflexivity|].
  intros p n [x Hx]. unfold fs0 in Hx. cbn [Fs.nodes] in Hx.
  apply lookup_insert_Some in Hx as [[E _]|[_ Hx]].
  - change ["srv"; "nas"] with (["srv"] ++ ["nas"]) in E.
    apply app_inj_tail in E as [<- _]. vm_compute. reflexivity.
  - apply lookup_singleton_Some in Hx as [E _].
    change ["srv"] with ([] ++ ["srv"]) in E.
    apply app_inj_tail in E as [<- _]. reflexivity.
Qed.

Example hub1_listening : listening hub1 "alice" 1%nat [].
Proof. split; vm_compute; reflexivity. Qed.

(** *** Uploads *)

Example upload_zip_listed :
  (api_upload 100 (Some "alice") zip3 fs0 hub1).2 = UpOk "a.zip"
  /\ (list_user_files (api_upload 100 (Some "alice") zip3 fs0 hub1).1.1 "alice").2
     = Some [mk_entry "a.zip" 3 100].
Proof. vm_compute. split; reflexivity. Qed.

Example upload_txt_refused :
  (api_upload 100 (Some "alice") (mk_upload "a.txt" [x01]) fs0 hub1).2 = UpUnsupported.
Proof. vm_compute. reflexivity. Qed.

Example upload_capital_zip :
  (api_upload 100 (Some "alice") (mk_upload "A.ZIP" [x01]) fs0 hub1).2 = UpOk "A.ZIP".
Proof. vm_compute. reflexivity. Qed.

(** With reads of two bytes, a body of five bytes is announced as 2, 4, 5. *)
Example upload_loop_three_chunks :
  Hub.sent
    (upload_loop 2 "alice" (alice_dir ++ ["a.zip"]) 100 [x01; x02; x03; x04; x05] 0
       fs0 hub1).1.2
  = [("alice", Progress 0 2 0); ("alice", Progress 0 4 0); ("alice", Progress 0 5 0)].
Proof. vm_compute. reflexivity. Qed.

(** C1 fails on the code: alice uploads [../secret.zip]; the handler answers
    200 and the three bytes are in [data/secret.zip], which is not inside
    her directory [data/alice]. *)
Lemma upload_traversal_escapes :
  (api_upload 100 (Some "alice") (mk_upload "../secret.zip" [x01; x02; x03]) fs0 hub1).2
  = UpOk "../secret.zip"
  /\ Fs.content_at
       (api_upload 100 (Some "alice") (mk_upload "../secret.zip" [x01; x02; x03]) fs0 hub1).1.1
       ["srv"; "nas"; "data"; "secret.zip"]
     = Some [x01; x02; x03]
  /\ (Fs.makedirs fs0 (Path.join DATA_ROOT "alice")).2 = Some alice_dir
  /\ ~ Fs.inside alice_dir ["srv"; "nas"; "data"; "secret.zip"].
Proof.
  split; [vm_compute; reflexivity|].
  split; [vm_compute; reflexivity|].
  split; [vm_compute; reflexivity|].
  intros [rest [_ E]]. unfold alice_dir in E. cbn [app] in E. discriminate E.
Qed.

Lemma upload_changes_only_joined_path_witness :
  Fs.content_at (api_upload 100 (Some "alice") zip3 fs0 hub1).1.1 (alice_dir ++ ["a.zip"])
  <> Fs.content_at fs0 (alice_dir ++ ["a.zip"])
  /\ exists u fs1 d,
       Some "alice" = Some u
       /\ Fs.makedirs fs0 (Path.join DATA_ROOT u) = (fs1, Some d)
       /\ Fs.locate fs1 (Path.join (Path.join DATA_ROOT u) (filename zip3))
          = Some (alice_dir ++ ["a.zip"])
       /\ (plain_name (filename zip3) ->
           alice_dir ++ ["a.zip"] = d ++ [filename zip3]
           /\ Fs.inside d (alice_dir ++ ["a.zip"])).
Proof.
  assert (Hc : Fs.content_at (api_upload 100 (Some "alice") zip3 fs0 hub1).1.1
                 (alice_dir ++ ["a.zip"])
               <> Fs.content_at fs0 (alice_dir ++ ["a.zip"])).
  { vm_compute. discriminate. }
  split; [exact Hc|].
  exact (upload_changes_only_joined_path 100 (Some "alice") zip3 fs0 hub1
           (alice_dir ++ ["a.zip"]) Hc).
Defined.

(** C6 fails on the code: [../a.zip] has an allowed extension and is
    accepted, yet alice's listing is empty afterwards. *)
Lemma upload_traversal_not_listed :
  ext_allowed "../a.zip" = true
  /\ (api_upload 100 (Some "alice") (mk_upload "../a.zip" [x01; x02; x03]) fs0 hub1).2
     = UpOk "../a.zip"
  /\ (list_user_files
        (api_upload 100 (Some "alice") (mk_upload "../a.zip" [x01; x02; x03]) fs0 hub1).1.1
        "alice").2
     = Some [].
Proof. vm_compute. repeat split; reflexivity. Qed.

Lemma upload_extension_gate_witness :
  "alice" <> "" /\ filename zip3 <> ""
  /\ (ext_allowed (filename zip3) = false ->
        api_upload 100 (Some "alice") zip3 fs_alice hub1 = ((fs_alice, hub1), UpUnsupported))
  /\ (ext_allowed (filename zip3) = true ->
        ((api_upload 100 (Some "alice") zip3 fs_alice hub1).2 = UpOk (filename zip3)
         \/ (api_upload 100 (Some "alice") zip3 fs_alice hub1).2 = UpError)
        /\ (forall d,
              plain_name (filename zip3) ->
              Fs.name_ok (filename zip3) = true ->
              Fs.path_fits (Path.join (Path.join DATA_ROOT "alice") (filename zip3)) = true ->
              Fs.makedirs fs_alice (Path.join DATA_ROOT "alice") = (fs_alice, Some d) ->
              Fs.isdir_at fs_alice (d ++ [filename zip3]) = false ->
              (api_upload 100 (Some "alice") zip3 fs_alice hub1).2 = UpOk (filename zip3)
              /\ Fs.content_at (api_upload 100 (Some "alice") zip3 fs_alice hub1).1.1
                   (d ++ [filename zip3]) = Some (body zip3))
        /\ (plain_name (filename zip3) -> Fs.wf fs_alice ->
            forall fs' h',
              api_upload 100 (Some "alice") zip3 fs_alice hub1
              = ((fs', h'), UpOk (filename zip3)) ->
              exists entries m,
                list_user_files fs' "alice" = (fs', Some entries)
                /\ mk_entry (filename zip3) (Z.of_nat (length (body zip3))) m ∈ entries)).
Proof.
  assert (H1 : "alice" <> "") by discriminate.
  assert (H2 : filename zip3 <> "") by discriminate.
  split; [exact H1|]. split; [exact H2|].
  exact (upload_extension_gate 100 "alice" zip3 fs_alice hub1 H1 H2).
Defined.

(** On that file system the upload of [zip3] meets every condition of the
    third part: it is answered 200 and the three bytes are stored. *)
Example upload_zip_on_existing_directory :
  plain_name (filename zip3)
  /\ Fs.name_ok (filename zip3) = true
  /\ Fs.path_fits (Path.join (Path.join DATA_ROOT "alice") (filename zip3)) = true
  /\ Fs.makedirs fs_alice (Path.join DATA_ROOT "alice") = (fs_alice, Some alice_dir)
  /\ Fs.isdir_at fs_alice (alice_dir ++ [filename zip3]) = false
  /\ (api_upload 100 (Some "alice") zip3 fs_alice hub1).2 = UpOk "a.zip"
  /\ Fs.content_at (api_upload 100 (Some "alice") zip3 fs_alice hub1).1.1
       (alice_dir ++ ["a.zip"]) = Some [x01; x02; x03].
Proof.
  split; [reflexivity|]. split; [vm_compute; reflexivity|].
  split; [vm_compute; reflexivity|].
  split; [apply walk_makedirs; [discriminate | vm_compute; reflexivity | vm_compute; reflexivity]|].
  split; [vm_compute; reflexivity|]. split; vm_compute; reflexivity.
Qed.

Lemma pair_eta3 {A B C} (x : A * B * C) : x = ((x.1.1, x.1.2), x.2).
Proof. destruct x as [[a b] c]. reflexivity. Defined.

Lemma upload_progress_monotone_witness :
  api_upload 100 (Some "alice") zip3 fs0 hub1
  = (((api_upload 100 (Some "alice") zip3 fs0 hub1).1.1,
      (api_upload 100 (Some "alice") zip3 fs0 hub1).1.2), UpOk "a.zip")
  /\ exists evs q,
       Hub.sent (api_upload 100 (Some "alice") zip3 fs0 hub1).1.2
       = Hub.sent hub1 ++ map (pair "alice") (evs ++ [Refresh])
       /\ Forall (fun m => m <> Refresh) evs
       /\ Sorted Z.le (progress_bytes evs)
       /\ Fs.content_at (api_upload 100 (Some "alice") zip3 fs0 hub1).1.1 q = Some (body zip3)
       /\ (forall p, Fs.content_at (api_upload 100 (Some "alice") zip3 fs0 hub1).1.1 p
                     <> Fs.content_at fs0 p -> p = q)
       /\ (body zip3 <> [] ->
           last (progress_bytes evs) = Some (Z.of_nat (length (body zip3))))
       /\ (body zip3 = [] -> evs = [])
       /\ (forall ws inbox,
             listening hub1 "alice" ws inbox ->
             listening (api_upload 100 (Some "alice") zip3 fs0 hub1).1.2 "alice" ws
                       (inbox ++ evs ++ [Refresh])).
Proof.
  assert (E : api_upload 100 (Some "alice") zip3 fs0 hub1
              = (((api_upload 100 (Some "alice") zip3 fs0 hub1).1.1,
                  (api_upload 100 (Some "alice") zip3 fs0 hub1).1.2), UpOk "a.zip")).
  { assert (R : (api_upload 100 (Some "alice") zip3 fs0 hub1).2 = UpOk "a.zip")
      by (vm_compute; reflexivity).
    rewrite <- R. apply pair_eta3. }
  split; [exact E|].
  exact (upload_progress_monotone 100 "alice" zip3 fs0 _ hub1 _ "a.zip" E).
Defined.

(** What that upload broadcast, and what alice's open connection holds. *)
Example upload_zip_events :
  Hub.sent (api_upload 100 (Some "alice") zip3 fs0 hub1).1.2
  = [("alice", Progress 0 3 0); ("alice", Refresh)]
  /\ ws_inbox <$> Hub.sockets (api_upload 100 (Some "alice") zip3 fs0 hub1).1.2 !! 1%nat
     = Some [Progress 0 3 0; Refresh].
Proof. vm_compute. split; reflexivity. Qed.

Lemma upload_extension_case_insensitive_witness :
  "alice" <> ""
  /\ ".zip" ∈ ALLOWED_EXTS
  /\ differs_only_in_case (Path.splitext "A.ZIP").2 ".zip" = true
  /\ upload_ext "A.ZIP" = ".zip"
  /\ (api_upload 100 (Some "alice") (mk_upload "A.ZIP" [x01]) fs_alice hub1).2 = UpOk "A.ZIP"
  /\ Fs.content_at (api_upload 100 (Some "alice") (mk_upload "A.ZIP" [x01]) fs_alice hub1).1.1
       (alice_dir ++ ["A.ZIP"]) = Some [x01].
Proof.
  assert (H1 : "alice" <> "") by discriminate.
  assert (H2 : ".zip" ∈ ALLOWED_EXTS) by apply list_elem_of_here.
  assert (H3 : differs_only_in_case (Path.splitext "A.ZIP").2 ".zip" = true) by reflexivity.
  destruct (upload_extension_case_insensitive 100 "alice" (mk_upload "A.ZIP" [x01])
              fs_alice hub1 ".zip" H1 H2 H3) as (E & _ & Hok).
  split; [exact H1|]. split; [exact H2|]. split; [exact H3|]. split; [exact E|].
  apply (Hok alice_dir).
  - reflexivity.
  - vm_compute. reflexivity.
  - vm_compute. reflexivity.
  - apply walk_makedirs; [discriminate | vm_compute; reflexivity | vm_compute; reflexivity].
  - vm_compute. reflexivity.
Defined.

(** C10 fails on the code as the claim has it: the extension of
    ['A' * 252 + '.ZIP'] differs from [.zip] in case only, the name has no
    separator and alice's directory is there, yet the upload is answered
    500 and not accepted, for [open] refuses a name of 256 bytes. One
    letter less, and it is accepted. *)
Lemma upload_long_name_not_accepted :
  differs_only_in_case (Path.splitext zip256).2 ".zip" = true
  /\ plain_name zip256
  /\ Fs.nbytes zip256 = 256%N
  /\ (user_dir fs_alice "alice").2 = Some "data/alice"
  /\ (api_upload 100 (Some "alice") (mk_upload zip256 [x01]) fs_alice hub1).2 = UpError
  /\ Fs.nbytes zip255 = 255%N
  /\ (api_upload 100 (Some "alice") (mk_upload zip255 [x01]) fs_alice hub1).2 = UpOk zip255.
Proof.
  split; [vm_compute; reflexivity|]. split; [vm_compute; reflexivity|].
  split; [vm_compute; reflexivity|]. split; [vm_compute; reflexivity|].
  split; [vm_compute; reflexivity|]. split; vm_compute; reflexivity.
Qed.

(** A name that holds NUL is refused in the same way. *)
Example upload_nul_name :
  (api_upload 100 (Some "alice") (mk_upload (String Fs.NUL "a.zip") [x01]) fs0 hub1).2
  = UpError.
Proof. vm_compute. reflexivity. Qed.

(** *** Registrations *)

(** Three requests from one address: two accounts, then 403. *)
Example register_three_times :
  created <$> (@run_register utc_server (init_db, fs0) [reg_alice; reg_bob; reg_carol]).2
  = [true; true; false]
  /\ (@run_register utc_server (init_db, fs0) [reg_alice; reg_bob; reg_carol]).2 !! 2%nat
     = Some RegQuotaExceeded
  /\ (@run_register utc_server (init_db, fs0) [reg_alice; reg_bob]).2
     = [RegOk (@create_jwt utc_server 1000 "alice"); RegOk (@create_jwt utc_server 1010 "bob")].
Proof. vm_compute. repeat split; reflexivity. Qed.


(** A second "alice", from another address: 409, and that address has
    used none of its quota. *)
Lemma api_register_duplicate_keeps_quota_witness :
  (@register_step utc_server
     (@run_register utc_server (init_db, fs0) [reg_alice]).1 reg_alice_again).2
  = RegDuplicate
  /\ (@register_step utc_server
        (@run_register utc_server (init_db, fs0) [reg_alice]).1 reg_alice_again).1
     = (@run_register utc_server (init_db, fs0) [reg_alice]).1
  /\ quota_of (@register_step utc_server
                 (@run_register utc_server (init_db, fs0) [reg_alice]).1 reg_alice_again).1.1
              "10.0.0.9" = 0.
Proof.
  assert (E : (@register_step utc_server
                 (@run_register utc_server (init_db, fs0) [reg_alice]).1 reg_alice_again).2
              = RegDuplicate) by (vm_compute; reflexivity).
  split; [exact E|].
  destruct (@run_register utc_server (init_db, fs0) [reg_alice]).1 as [d fs] eqn:Est.
  destruct (@api_register_duplicate_keeps_quota utc_server 1030 "s4" "10.0.0.9"
              (Some "alice") (Some "pw4") d fs) as ((Hst & _ & Hq) & _ & _).
  { exact E. }
  unfold register_step. cbn [rq_now rq_salt rq_ip rq_username rq_password reg_alice_again fst snd].
  split; [exact Hst|].
  rewrite Hq. apply (f_equal (fun st => quota_of st.1 "10.0.0.9")) in Est.
  cbn [fst] in Est. rewrite <- Est. vm_compute. reflexivity.
Defined.

(** * Further properties of the code *)

(** ** The hub *)

Section HubMore.

Lemma send_json_spec (msg : message) (s : websocket) :
  Hub.send_json msg s = if ws_open s then Some (after_send msg s) else None.
Proof. unfold Hub.send_json, after_send. now destruct (ws_open s). Qed.

(** The first loop of [Hub.broadcast] over connections that are all
    different: each of them that can be sent to holds one message more, the
    others are noted as dead, and no other connection is touched. *)
Lemma deliver_fold_spec (msg : message) (l : list nat) :
  forall (socks : gmap nat websocket) (dead : list nat),
    NoDup l ->
    (forall w, (foldl (Hub.deliver msg) (socks, dead) l).1 !! w
               = if decide (w ∈ l) then after_send msg <$> socks !! w else socks !! w)
    /\ (forall w, w ∈ (foldl (Hub.deliver msg) (socks, dead) l).2
                  <-> w ∈ dead \/ (w ∈ l /\ socks !! w ≫= Hub.send_json msg = None)).
Proof.
  induction l as [|x l IH]; intros socks dead Hnd.
  - cbn. split; [reflexivity|]. intros w. rewrite elem_of_nil. tauto.
  - apply NoDup_cons in Hnd as [Hx Hnd]. cbn [foldl].
    unfold Hub.deliver at 2 4.
    destruct (socks !! x ≫= Hub.send_json msg) as [s|] eqn:Hsend.
    + destruct (IH (<[x := s]> socks) dead Hnd) as [H1 H2]. split.
      * intros w. rewrite H1. destruct (decide (w = x)) as [->|Hne].
        -- rewrite decide_False by exact Hx.
           rewrite (decide_True (P := x ∈ x :: l)) by apply list_elem_of_here.
           rewrite lookup_insert_eq.
           destruct (socks !! x) as [s0|]; [|discriminate Hsend]. cbn in Hsend |- *.
           rewrite send_json_spec in Hsend.
           destruct (ws_open s0) eqn:Ho; [now injection Hsend as <- | discriminate Hsend].
        -- rewrite lookup_insert_ne by congruence.
           destruct (decide (w ∈ l)) as [Hin|Hout].
           ++ now rewrite decide_True by (now apply list_elem_of_further).
           ++ rewrite decide_False; [reflexivity|].
              intros [->|Hin]%elem_of_cons; [now apply Hne | now apply Hout].
      * intros w. rewrite H2, elem_of_cons. split.
        -- intros [Hd|[Hin Hw]]; [now left|]. right.
           assert (w <> x) by (intros ->; now apply Hx).
           rewrite lookup_insert_ne in Hw by congruence. tauto.
        -- intros [Hd|[[->|Hin] Hw]]; [now left | congruence |]. right.
           assert (w <> x) by (intros ->; now apply Hx).
           rewrite lookup_insert_ne by congruence. tauto.
    + destruct (IH socks (dead ++ [x]) Hnd) as [H1 H2]. split.
      * intros w. rewrite H1. destruct (decide (w = x)) as [->|Hne].
        -- rewrite decide_False by exact Hx.
           rewrite (decide_True (P := x ∈ x :: l)) by apply list_elem_of_here.
           destruct (socks !! x) as [s0|]; [|reflexivity]. cbn in Hsend |- *.
           rewrite send_json_spec in Hsend. unfold after_send.
           destruct (ws_open s0); [discriminate Hsend | reflexivity].
        -- destruct (decide (w ∈ l)) as [Hin|Hout].
           ++ now rewrite decide_True by (now apply list_elem_of_further).
           ++ rewrite decide_False; [reflexivity|].
              intros [->|Hin]%elem_of_cons; [now apply Hne | now apply Hout].
      * intros w. rewrite H2, elem_of_app, list_elem_of_singleton, elem_of_cons. split.
        -- intros [[Hd| ->]|[Hin Hw]]; tauto.
        -- intros [Hd|[[->|Hin] Hw]]; tauto.
Qed.

Lemma send_none_iff (h : Hub.t) (msg : message) (ws : nat) :
  Hub.sockets h !! ws ≫= Hub.send_json msg = None <-> alive h ws = false.
Proof.
  unfold alive. destruct (Hub.sockets h !! ws) as [s|]; cbn; [|tauto].
  rewrite send_json_spec. destruct (ws_open s); split; congruence.
Qed.

(** [Hub.broadcast], connection by connection and room by room. *)
Lemma broadcast_spec (h : Hub.t) (u : string) (msg : message) :
  (forall ws, Hub.sockets (Hub.broadcast u msg h) !! ws
              = if decide (ws ∈ Hub.room h u)
                then after_send msg <$> Hub.sockets h !! ws
                else Hub.sockets h !! ws)
  /\ (forall ws, ws ∈ Hub.room (Hub.broadcast u msg h) u
                 <-> ws ∈ Hub.room h u /\ alive h ws = true)
  /\ (forall u', u' <> u -> Hub.room (Hub.broadcast u msg h) u' = Hub.room h u').
Proof.
  unfold Hub.broadcast.
  destruct (deliver_fold_spec msg (elements (Hub.room h u)) (Hub.sockets h) []
              (NoDup_elements _)) as [H1 H2].
  destruct (foldl (Hub.deliver msg) (Hub.sockets h, []) (elements (Hub.room h u)))
    as [socks dead].
  cbn [fst snd] in H1, H2. cbn [Hub.sockets]. split; [|split].
  - intros ws. rewrite H1. destruct (decide (ws ∈ Hub.room h u)) as [Hin|Hout].
    + now rewrite decide_True by (now apply elem_of_elements).
    + rewrite decide_False; [reflexivity|]. now rewrite elem_of_elements.
  - intros ws. unfold Hub.room at 1. cbn [Hub.rooms]. rewrite lookup_alter_eq.
    unfold Hub.room in *. destruct (Hub.rooms h !! u) as [r|]; cbn [fmap option_fmap option_map default] in *.
    + unfold id in *.
      rewrite elem_of_difference, elem_of_list_to_set, H2, elem_of_nil, elem_of_elements.
      rewrite send_none_iff. destruct (alive h ws); split; intros; intuition congruence.
    + rewrite elem_of_empty. tauto.
  - intros u' Hne. unfold Hub.room. cbn [Hub.rooms]. now rewrite lookup_alter_ne by congruence.
Qed.

(** X1. A broadcast to [u] reaches the connections of [u]'s room and no
    other: a room member that is open holds the message once more at the end
    of what it received, a member that is closed is left as it is, and a
    connection that is not in the room is left as it is, whosever it is. *)
Theorem broadcast_reaches_room_only (h : Hub.t) (u : string) (msg : message) (ws : nat) :
  Hub.sockets (Hub.broadcast u msg h) !! ws
  = if decide (ws ∈ Hub.room h u)
    then match Hub.sockets h !! ws with
         | Some s => Some (if ws_open s then mk_ws true (ws_inbox s ++ [msg]) else s)
         | None => None
         end
    else Hub.sockets h !! ws.
Proof.
  destruct (broadcast_spec h u msg) as [H1 _]. rewrite H1.
  destruct (decide (ws ∈ Hub.room h u)); [|reflexivity].
  destruct (Hub.sockets h !! ws); reflexivity.
Qed.

(** X2. A broadcast prunes the dead: afterwards the room holds exactly its
    members that could be sent to, every member left is open, and the rooms
    of other users are what they were. *)
Theorem broadcast_prunes_dead (h : Hub.t) (u : string) (msg : message) :
  (forall ws, ws ∈ Hub.room (Hub.broadcast u msg h) u
              <-> ws ∈ Hub.room h u /\ alive h ws = true)
  /\ (forall ws, ws ∈ Hub.room (Hub.broadcast u msg h) u ->
                 alive (Hub.broadcast u msg h) ws = true)
  /\ (forall u', u' <> u -> Hub.room (Hub.broadcast u msg h) u' = Hub.room h u').
Proof.
  destruct (broadcast_spec h u msg) as (H1 & H2 & H3).
  split; [exact H2|]. split; [|exact H3].
  intros ws [Hin Ha]%H2. unfold alive in *. rewrite H1.
  rewrite decide_True by exact Hin.
  destruct (Hub.sockets h !! ws) as [s|]; [|discriminate Ha]. cbn.
  unfold after_send. now rewrite Ha.
Qed.

Lemma join_inv (h h1 : Hub.t) (u : string) (ws : nat) :
  Hub.join u ws h = Some h1 ->
  Hub.sockets h !! ws = None
  /\ h1 = Hub.mk (<[u := {[ws]} ∪ Hub.room h u]> (Hub.rooms h))
                 (<[ws := mk_ws true []]> (Hub.sockets h)) (Hub.sent h).
Proof.
  unfold Hub.join, Hub.accept.
  destruct (Hub.sockets h !! ws); [discriminate|]. now intros [= <-].
Qed.

Lemma room_join (h h1 : Hub.t) (u : string) (ws : nat) (u' : string) :
  Hub.join u ws h = Some h1 ->
  Hub.room h1 u'
  = if decide (u' = u) then {[ws]} ∪ Hub.room h u else Hub.room h u'.
Proof.
  intros [_ ->]%join_inv. unfold Hub.room. cbn [Hub.rooms].
  destruct (decide (u' = u)) as [->|Hne].
  - now rewrite lookup_insert_eq.
  - now rewrite lookup_insert_ne by congruence.
Qed.

Lemma room_leave (h : Hub.t) (u : string) (ws : nat) (u' : string) :
  Hub.room (Hub.leave u ws h) u'
  = if decide (u' = u) then Hub.room h u ∖ {[ws]} else Hub.room h u'.
Proof.
  unfold Hub.room, Hub.leave. cbn [Hub.rooms].
  destruct (decide (u' = u)) as [->|Hne].
  - rewrite lookup_alter_eq. destruct (Hub.rooms h !! u); cbn; [reflexivity|].
    apply set_eq. intros x. rewrite elem_of_difference, elem_of_empty. tauto.
  - now rewrite lookup_alter_ne by congruence.
Qed.

Lemma leave_noop (h : Hub.t) (u : string) (ws : nat) :
  ws ∉ Hub.room h u -> Hub.leave u ws h = h.
Proof.
  destruct h as [rooms socks sent]. intros Hout.
  unfold Hub.leave, Hub.room in *. cbn [Hub.rooms Hub.sockets Hub.sent] in *.
  f_equal. apply map_eq. intros k. destruct (decide (k = u)) as [->|Hne].
  - rewrite lookup_alter_eq. destruct (rooms !! u) as [r|]; cbn in *; [|reflexivity].
    f_equal. apply set_eq. intros x. rewrite elem_of_difference, elem_of_singleton.
    split; [tauto|]. intros Hx. split; [exact Hx|]. intros ->. now apply Hout.
  - now rewrite lookup_alter_ne by congruence.
Qed.

(** X3. [Hub.leave] takes the connection out of the user's room and nothing
    else; it changes nothing when the connection is not registered, also
    when the user has no room, and so doing it twice is doing it once. *)
Theorem leave_idempotent (h : Hub.t) (u : string) (ws : nat) :
  (forall ws', ws' ∈ Hub.room (Hub.leave u ws h) u <-> ws' ∈ Hub.room h u /\ ws' <> ws)
  /\ (forall u', u' <> u -> Hub.room (Hub.leave u ws h) u' = Hub.room h u')
  /\ (ws ∉ Hub.room h u -> Hub.leave u ws h = h)
  /\ Hub.leave u ws (Hub.leave u ws h) = Hub.leave u ws h.
Proof.
  assert (Hnoop : forall h0, ws ∉ Hub.room h0 u -> Hub.leave u ws h0 = h0).
  { intros [rooms socks sent] Hout. unfold Hub.leave, Hub.room in *. cbn [Hub.rooms Hub.sockets Hub.sent] in *.
    f_equal. apply map_eq. intros k. destruct (decide (k = u)) as [->|Hne].
    - rewrite lookup_alter_eq. destruct (rooms !! u) as [r|]; cbn in *; [|reflexivity].
      f_equal. apply set_eq. intros x. rewrite elem_of_difference, elem_of_singleton.
      split; [tauto|]. intros Hx. split; [exact Hx|]. intros ->. now apply Hout.
    - now rewrite lookup_alter_ne by congruence. }
  split; [|split; [|split]].
  - intros ws'. rewrite room_leave, (decide_True (P := u = u)) by reflexivity.
    rewrite elem_of_difference, elem_of_singleton. tauto.
  - intros u' Hne. now rewrite room_leave, decide_False.
  - apply Hnoop.
  - apply Hnoop. rewrite room_leave, (decide_True (P := u = u)) by reflexivity.
    rewrite elem_of_difference, elem_of_singleton. tauto.
Qed.

(** X4. Registration decides delivery. [Hub.join] answers the handshake
    before it registers: for a connection that is still waiting for the
    answer, it accepts the connection, puts it into [u]'s room, and the next
    broadcast to [u] reaches it; for a connection that has been accepted
    already, [accept] raises and [Hub.join] registers nothing. Once
    [Hub.leave] has taken a connection out, a broadcast to [u] leaves it as
    it is. *)
Theorem join_leave_decide_delivery (h : Hub.t) (u : string) (ws : nat) (msg : message) :
  (Hub.sockets h !! ws = None ->
     exists h1,
       Hub.join u ws h = Some h1
       /\ ws ∈ Hub.room h1 u
       /\ Hub.sockets (Hub.broadcast u msg h1) !! ws = Some (mk_ws true [msg]))
  /\ (is_Some (Hub.sockets h !! ws) -> Hub.join u ws h = None)
  /\ Hub.sockets (Hub.broadcast u msg (Hub.leave u ws h)) !! ws = Hub.sockets h !! ws.
Proof.
  split; [|split].
  - intros Hnew.
    assert (E : Hub.join u ws h
                = Some (Hub.mk (<[u := {[ws]} ∪ Hub.room h u]> (Hub.rooms h))
                               (<[ws := mk_ws true []]> (Hub.sockets h)) (Hub.sent h))).
    { unfold Hub.join, Hub.accept. now rewrite Hnew. }
    eexists. split; [exact E|].
    assert (Hin : ws ∈ Hub.room (Hub.mk (<[u := {[ws]} ∪ Hub.room h u]> (Hub.rooms h))
                                   (<[ws := mk_ws true []]> (Hub.sockets h)) (Hub.sent h)) u).
    { rewrite (room_join _ _ _ _ u E), (decide_True (P := u = u)) by reflexivity.
      apply elem_of_union_l, elem_of_singleton. reflexivity. }
    split; [exact Hin|].
    destruct (broadcast_spec (Hub.mk (<[u := {[ws]} ∪ Hub.room h u]> (Hub.rooms h))
                                (<[ws := mk_ws true []]> (Hub.sockets h)) (Hub.sent h))
                u msg) as [H1 _].
    rewrite H1, decide_True by exact Hin.
    cbn [Hub.sockets]. now rewrite lookup_insert_eq.
  - intros [s Hs]. unfold Hub.join, Hub.accept. now rewrite Hs.
  - destruct (broadcast_spec (Hub.leave u ws h) u msg) as [H1 _]. rewrite H1.
    rewrite room_leave, (decide_True (P := u = u)) by reflexivity.
    rewrite decide_False; [reflexivity|].
    rewrite elem_of_difference, elem_of_singleton. tauto.
Qed.

End HubMore.

(** ** The WebSocket endpoint *)

Section EndpointMore.
Context `{Platform}.

(** X18. [ws_main] registers nobody. It answers the handshake itself and
    then calls [Hub.join], whose own [accept] raises on the connection that
    has just been accepted; the handler catches that and leaves. So the
    handler never stays in its receive loop, whatever the cookie and
    whatever the client sends; no room gains a member; nothing is
    broadcast; and where the connection was in no room, the rooms are what
    they were. *)
Theorem ws_main_registers_nobody (now : Z) (cookie : option jwt) (frames : list frame)
    (ws : nat) (h : Hub.t) :
  (ws_main now cookie frames ws h).2 <> WsListening
  /\ (forall u, Hub.room (ws_main now cookie frames ws h).1 u ⊆ Hub.room h u)
  /\ Hub.sent (ws_main now cookie frames ws h).1 = Hub.sent h
  /\ ((forall u, ws ∉ Hub.room h u) ->
      Hub.rooms (ws_main now cookie frames ws h).1 = Hub.rooms h).
Proof.
  unfold ws_main, Hub.accept.
  destruct (Hub.sockets h !! ws) as [s|] eqn:Hs.
  { cbn [fst snd]. split; [discriminate|]. split; [reflexivity|]. now split. }
  assert (Hclosed : forall socks,
            WsClosed <> WsListening
            /\ (forall u, Hub.room (Hub.mk (Hub.rooms h) socks (Hub.sent h)) u ⊆ Hub.room h u)
            /\ Hub.sent (Hub.mk (Hub.rooms h) socks (Hub.sent h)) = Hub.sent h
            /\ ((forall u, ws ∉ Hub.room h u) ->
                Hub.rooms (Hub.mk (Hub.rooms h) socks (Hub.sent h)) = Hub.rooms h)).
  { intros socks. split; [discriminate|]. split; [reflexivity|]. now split. }
  destruct (match cookie with Some token => verify_jwt now token | None => None end)
    as [user|]; [|apply Hclosed].
  destruct (Str.truthy user); cbn [negb]; [|apply Hclosed].
  unfold Hub.join, Hub.accept. cbn [Hub.sockets mbind option_bind].
  rewrite lookup_insert_eq. cbn [mbind option_bind fst snd].
  set (h1 := Hub.mk (Hub.rooms h) (<[ws := mk_ws true []]> (Hub.sockets h)) (Hub.sent h)).
  assert (Hroom : forall u, Hub.room h1 u = Hub.room h u) by reflexivity.
  split; [discriminate|]. split; [|split].
  - intros u. rewrite room_leave, !Hroom.
    destruct (decide (u = user)) as [->|_]; [|reflexivity].
    intros x. rewrite elem_of_difference. tauto.
  - reflexivity.
  - intros Hout.
    assert (Hnoop : Hub.leave user ws h1 = h1).
    { apply leave_noop. rewrite Hroom. apply Hout. }
    now rewrite Hnoop.
Qed.

End EndpointMore.

(** A connection with a valid cookie goes through [ws_main] and is in no
    room afterwards: the next broadcast to its user does not reach it. *)
Example ws_main_valid_cookie :
  (@ws_main utc_server 1500 (Some (@create_jwt utc_server 1000 "alice")) [TextFrame]
     7%nat hub1).2 = WsLeft
  /\ bool_decide (7%nat ∈ Hub.room (@ws_main utc_server 1500
                      (Some (@create_jwt utc_server 1000 "alice")) [TextFrame]
                      7%nat hub1).1 "alice") = false
  /\ ws_inbox <$> Hub.sockets (Hub.broadcast "alice" Refresh
                    (@ws_main utc_server 1500
                       (Some (@create_jwt utc_server 1000 "alice")) [TextFrame]
                       7%nat hub1).1) !! 7%nat
     = Some [].
Proof. vm_compute. split; [reflexivity|]. split; reflexivity. Qed.

(** ** Sessions and the middleware *)

Section SessionsMore.
Context `{Platform}.

(** X5. The cookie the server set at [T] for [u] authenticates as [u] at
    every time up to the expiry stored in it and as nobody after it; a
    request without the cookie authenticates as nobody. The stored expiry is
    [T + 24h] less an offset that the server's zone has at some instant:
    in a zone whose offset is always [z], [T + 24h - z]. *)
Theorem require_user_window (T now : Z) (u : string) :
  (now <= jwt_exp (create_jwt T u) ->
     require_user now (Some (create_jwt T u)) = Some u)
  /\ (jwt_exp (create_jwt T u) < now ->
        require_user now (Some (create_jwt T u)) = None)
  /\ require_user now None = None
  /\ (exists s, jwt_exp (create_jwt T u) = T + 86400 - utc_offset s)
  /\ (forall z, (forall s, utc_offset s = z) ->
                jwt_exp (create_jwt T u) = T + 86400 - z).
Proof.
  cbn [require_user]. rewrite verify_create_jwt, create_jwt_exp.
  split; [|split; [|split; [|split]]].
  - intros Hn. destruct (Z.ltb_spec (naive_timestamp (T + 86400)) now); [lia | reflexivity].
  - intros Hn. destruct (Z.ltb_spec (naive_timestamp (T + 86400)) now); [reflexivity | lia].
  - reflexivity.
  - apply naive_timestamp_offset.
  - intros z Hz. now apply naive_timestamp_fixed.
Qed.

Lemma startswith_app (a b s : string) :
  Str.startswith (a +:+ b) s = true -> Str.startswith a s = true.
Proof.
  revert s; induction a as [|x a IH]; intros s; [reflexivity|].
  rewrite append_cons. cbn [Str.startswith]. destruct s as [|y s]; [discriminate|].
  intros [Hx Hs]%andb_true_iff. rewrite Hx. cbn [andb]. now apply IH.
Qed.

Lemma not_api_not_public (path : string) :
  Str.startswith "/api" path = false ->
  startswith_any public_paths path = Str.startswith "/auth" path
  /\ Str.startswith "/api/lan" path = false
  /\ path <> "/api/me".
Proof.
  intros Hn.
  assert (Hpre : forall b, Str.startswith ("/api" +:+ b) path = false).
  { intros b. destruct (Str.startswith ("/api" +:+ b) path) eqn:E; [|reflexivity].
    apply startswith_app in E. congruence. }
  pose proof (Hpre "/login") as H1. change ("/api" +:+ "/login") with "/api/login" in H1.
  pose proof (Hpre "/register") as H2.
  change ("/api" +:+ "/register") with "/api/register" in H2.
  pose proof (Hpre "/qr/claim") as H3.
  change ("/api" +:+ "/qr/claim") with "/api/qr/claim" in H3.
  split; [|split].
  - unfold startswith_any, public_paths. cbn [existsb].
    rewrite H1, H2, H3. now rewrite !orb_false_r.
  - apply (Hpre "/lan").
  - intros ->. discriminate Hn.
Qed.

(** X6. The middleware redirects to the login page in one case only: a
    [GET] of a path outside [/api], [/auth...] and [/static...], other than
    [/], without a valid session. In particular every [/api] request is
    passed on to its handler, with or without a session, and so is every
    request that carries a valid session. *)
Theorem require_auth_mw_redirects_iff (now : Z) (method path : string) (cookie : option jwt) :
  (require_auth_mw now method path cookie = MwRedirect
   <-> method = "GET"
       /\ Str.startswith "/api" path = false
       /\ Str.startswith "/auth" path = false
       /\ Str.startswith "/static" path = false
       /\ path <> "/"
       /\ no_session now cookie = true)
  /\ (Str.startswith "/api" path = true ->
        require_auth_mw now method path cookie = MwForward)
  /\ (no_session now cookie = false ->
        require_auth_mw now method path cookie = MwForward).
Proof.
  unfold require_auth_mw.
  destruct (Str.startswith "/api" path) eqn:Hapi.
  - assert (Hf : (if startswith_any public_paths path || Str.startswith "/static" path
                     || Str.startswith "/api/lan" path
                  then MwForward
                  else if negb (bool_decide (path ∈ ["/"; "/api/me"])) && no_session now cookie
                       then if String.eqb method "GET" && negb true then MwRedirect else MwForward
                       else MwForward) = MwForward).
    { rewrite andb_false_r.
      destruct (_ || _ || _); [reflexivity|]. now destruct (_ && _). }
    rewrite Hf. split; [|split]; [|reflexivity|reflexivity].
    split; [discriminate | intros (_ & C & _); discriminate C].
  - destruct (not_api_not_public path Hapi) as (-> & -> & Hme).
    rewrite orb_false_r. cbn [negb]. rewrite andb_true_r.
    destruct (Str.startswith "/auth" path) eqn:Hauth; cbn [orb].
    { split; [|split]; [|discriminate|reflexivity].
      split; [discriminate | intros (_ & _ & C & _); discriminate C]. }
    destruct (Str.startswith "/static" path) eqn:Hstatic.
    { split; [|split]; [|discriminate|reflexivity].
      split; [discriminate | intros (_ & _ & _ & C & _); discriminate C]. }
    destruct (decide (path = "/")) as [->|Hroot].
    { cbn. split; [|split]; [|discriminate|reflexivity].
      split; [discriminate | intros (_ & _ & _ & _ & C & _); now destruct C]. }
    rewrite bool_decide_eq_false_2.
    2:{ rewrite !elem_of_cons, elem_of_nil. tauto. }
    cbn [negb andb].
    destruct (no_session now cookie) eqn:Hs.
    + destruct (String.eqb_spec method "GET") as [->|Hm].
      * split; [|split]; [|discriminate|discriminate]. split; [|reflexivity]. tauto.
      * split; [|split]; [|discriminate|discriminate].
        split; [discriminate | intros (C & _); now destruct Hm].
    + split; [|split]; [|discriminate|reflexivity].
      split; [discriminate | intros (_ & _ & _ & _ & _ & C); discriminate C].
Qed.

End SessionsMore.

(** ** QR tokens *)

Section QrMore.
Context `{Platform}.

(** X7. A token made by [new_qr_token] at [now] expires at [now + 120]; a
    first claim up to that time logs in as the user the token was made for
    and takes the row away again, and a first claim after it is refused as
    expired. *)
Theorem new_qr_token_then_claim (now now' : Z) (token username : string) (d : Db) :
  (new_qr_token now token username d).2 = (token, now + 120)
  /\ (now' <= now + 120 ->
        api_qr_claim now' token (new_qr_token now token username d).1
        = (mk_db (users d) (delete token (qr_tokens d)) (ip_quota d),
           ClaimOk (create_jwt now' username)))
  /\ (now + 120 < now' ->
        (api_qr_claim now' token (new_qr_token now token username d).1).2 = ClaimExpired).
Proof.
  assert (Hrow : qr_tokens (new_qr_token now token username d).1 !! token
                 = Some (mk_qr username (now + 120))).
  { cbn. apply lookup_insert_eq. }
  split; [reflexivity|]. split.
  - intros Hle. rewrite (api_qr_claim_live _ _ _ _ Hrow) by (cbn [expire_at]; lia).
    cbn. now rewrite delete_insert_eq.
  - intros Hlt. rewrite (api_qr_claim_expired _ _ _ _ Hrow) by (cbn [expire_at]; lia).
    reflexivity.
Qed.

(** X8. Whatever it answers, a claim leaves the users, the quota counts and
    the rows of all other tokens as they were. *)
Theorem api_qr_claim_touches_own_row_only (now : Z) (token : string) (d : Db) :
  users (api_qr_claim now token d).1 = users d
  /\ ip_quota (api_qr_claim now token d).1 = ip_quota d
  /\ forall t, t <> token ->
       qr_tokens (api_qr_claim now token d).1 !! t = qr_tokens d !! t.
Proof.
  destruct (qr_tokens d !! token) as [row|] eqn:Hr.
  - destruct (Z.lt_ge_cases (expire_at row) now) as [Hlt|Hge].
    + rewrite (api_qr_claim_expired _ _ _ _ Hr Hlt). now repeat split.
    + rewrite (api_qr_claim_live _ _ _ _ Hr Hge). cbn. repeat split.
      intros t Hne. now rewrite lookup_delete_ne by congruence.
  - rewrite (api_qr_claim_absent _ _ _ Hr). now repeat split.
Qed.

(** X9. A claim that succeeds logs in as the user stored with the token
    and as no one else: the session is the one [create_jwt] makes for that
    user, and the token was in the store and not past its expiry. *)
Theorem api_qr_claim_grants_bound_user (now : Z) (token : string) (d d' : Db) (s : jwt) :
  api_qr_claim now token d = (d', ClaimOk s) ->
  exists row,
    qr_tokens d !! token = Some row
    /\ now <= expire_at row
    /\ s = create_jwt now (qr_username row)
    /\ jwt_sub s = qr_username row.
Proof.
  intros Hc. destruct (qr_tokens d !! token) as [row|] eqn:Hr.
  - destruct (Z.lt_ge_cases (expire_at row) now) as [Hlt|Hge].
    + rewrite (api_qr_claim_expired _ _ _ _ Hr Hlt) in Hc. discriminate Hc.
    + rewrite (api_qr_claim_live _ _ _ _ Hr Hge) in Hc. injection Hc as _ <-.
      exists row. repeat split. exact Hge.
  - rewrite (api_qr_claim_absent _ _ _ Hr) in Hc. discriminate Hc.
Qed.

End QrMore.

Lemma api_qr_claim_grants_bound_user_witness :
  @api_qr_claim utc_server 1050 "tok" db_qr
  = ((@api_qr_claim utc_server 1050 "tok" db_qr).1, ClaimOk (@create_jwt utc_server 1050 "alice"))
  /\ exists row,
       qr_tokens db_qr !! "tok" = Some row
       /\ 1050 <= expire_at row
       /\ @create_jwt utc_server 1050 "alice" = @create_jwt utc_server 1050 (qr_username row)
       /\ jwt_sub (@create_jwt utc_server 1050 "alice") = qr_username row.
Proof.
  assert (E : @api_qr_claim utc_server 1050 "tok" db_qr
              = ((@api_qr_claim utc_server 1050 "tok" db_qr).1,
                 ClaimOk (@create_jwt utc_server 1050 "alice"))).
  { rewrite (@api_qr_claim_live utc_server 1050 "tok" db_qr (mk_qr "alice" 1120));
      [reflexivity | vm_compute; reflexivity | cbn; lia]. }
  split; [exact E|].
  exact (@api_qr_claim_grants_bound_user utc_server 1050 "tok" db_qr _ _ E).
Defined.

(** ** Login and the accounts *)

Section LoginMore.
Context `{Platform} `{PasswordCheck}.

(** X10. Registering and then logging in: after a registration that created
    the account, a login with the same request body succeeds at any later
    time, as the registered (stripped) username, and leaves the database as
    it is -- provided the library's [verify] accepts the password against
    the hash its [hash] made of it. *)
Theorem register_then_login (now now' : Z) (salt ip : string) (bu bp : option string)
    (d : Db) (fs : Fs.t) :
  created (api_register now salt ip bu bp d fs).2 = true ->
  pbkdf2_sha256_verify (or_empty bp) (pbkdf2_sha256_hash salt (or_empty bp)) = true ->
  api_login now' bu bp (api_register now salt ip bu bp d fs).1.1
  = ((api_register now salt ip bu bp d fs).1.1,
     LoginOk (create_jwt now' (Str.strip (or_empty bu)))).
Proof.
  intros Hc Hv.
  destruct (decide (Str.strip (or_empty bu) = "" \/ or_empty bp = "")) as [Hm|Hm].
  { rewrite (api_register_missing _ _ _ _ _ _ _ Hm) in Hc. discriminate Hc. }
  assert (Hu : Str.strip (or_empty bu) <> "") by tauto.
  assert (Hp : or_empty bp <> "") by tauto.
  destruct (Z.le_gt_cases 2 (quota_of d ip)) as [Hq|Hq].
  { rewrite (api_register_over_quota _ _ _ _ _ _ _ Hu Hp Hq) in Hc. discriminate Hc. }
  destruct (users d !! Str.strip (or_empty bu)) as [row|] eqn:Hrow.
  { rewrite (api_register_duplicate _ _ _ _ _ _ _ _ Hu Hp Hq Hrow) in Hc. discriminate Hc. }
  destruct (api_register_commits now salt ip bu bp d fs Hu Hp Hq Hrow)
    as (fs' & resp & -> & _ & _).
  cbn [fst snd]. unfold api_login, Sql.db, Sql.close. cbn [pending committed].
  unfold register_commit at 1. cbn [users]. rewrite lookup_insert_eq.
  cbn [password_hash]. now rewrite Hv.
Qed.

End LoginMore.

Section AccountsMore.
Context `{Platform}.

Lemma register_step_adds (st : Db * Fs.t) (r : register_request) :
  (forall u row, users st.1 !! u = Some row ->
                 users (register_step st r).1.1 !! u = Some row)
  /\ qr_tokens (register_step st r).1.1 = qr_tokens st.1.
Proof.
  unfold register_step. destruct st as [d fs]. cbn [fst snd].
  destruct (decide (Str.strip (or_empty (rq_username r)) = ""
                    \/ or_empty (rq_password r) = "")) as [Hm|Hm].
  { rewrite (api_register_missing _ _ _ _ _ _ _ Hm). now split. }
  assert (Hu : Str.strip (or_empty (rq_username r)) <> "") by tauto.
  assert (Hp : or_empty (rq_password r) <> "") by tauto.
  destruct (Z.le_gt_cases 2 (quota_of d (rq_ip r))) as [Hq|Hq].
  { rewrite (api_register_over_quota _ _ _ _ _ _ _ Hu Hp Hq). now split. }
  destruct (users d !! Str.strip (or_empty (rq_username r))) as [row|] eqn:Hrow.
  { rewrite (api_register_duplicate _ _ _ _ _ _ _ _ Hu Hp Hq Hrow). now split. }
  destruct (api_register_commits (rq_now r) (rq_salt r) (rq_ip r) _ _ d fs Hu Hp Hq Hrow)
    as (fs' & resp & -> & _ & _).
  cbn [fst snd]. split; [|reflexivity].
  intros u row' Hrow'. unfold register_commit. cbn [users].
  rewrite lookup_insert_ne; [exact Hrow'|]. intros <-. congruence.
Qed.

(** X11. Registration only ever adds: over any history of registration
    requests, from any database, every account that was there is still
    there with the same password hash and creation time, no address's count
    goes down, and the QR tokens are not touched. *)
Theorem run_register_only_adds (rs : list register_request) (st : Db * Fs.t) :
  (forall u row, users st.1 !! u = Some row ->
                 users (run_register st rs).1.1 !! u = Some row)
  /\ (forall ip, quota_of st.1 ip <= quota_of (run_register st rs).1.1 ip)
  /\ qr_tokens (run_register st rs).1.1 = qr_tokens st.1.
Proof.
  revert st. induction rs as [|r rs IH]; intros st.
  - cbn. repeat split; [auto | intros; lia].
  - rewrite run_register_cons. cbn [fst snd].
    destruct (IH (register_step st r).1) as (IH1 & IH2 & IH3).
    destruct (register_step_adds st r) as [S1 S3].
    split; [|split].
    + intros u row Hrow. apply IH1, S1, Hrow.
    + intros ip. destruct (register_step_quota st r ip) as [S2 _].
      specialize (IH2 ip).
      destruct (String.eqb (rq_ip r) ip && created (register_step st r).2); lia.
    + now rewrite IH3.
Qed.

End AccountsMore.

(** ** Download and delete *)

Section FilesMore.
Import Fs FsFacts.

Lemma os_walk_iff (fs : t) (cs : list string) :
  forall cur d, Os.walk fs cur cs = inr d <-> walk fs cur cs = Some d.
Proof.
  induction cs as [|c cs IH]; intros cur d; cbn [Os.walk walk].
  - split; intros [= ->]; reflexivity.
  - destruct (classify c) as [| |name|]; [apply IH | apply IH | | split; discriminate].
    unfold isdir_at. destruct (node_at fs (cur ++ [name])) as [[|content m]|];
      [apply IH | split; discriminate | split; discriminate].
Qed.

Lemma locate_same_dirs (fs fs' : t) (p : string) :
  same_dirs fs fs' -> locate fs' p = locate fs p.
Proof.
  intros Hsd. unfold locate, start.
  rewrite (walk_same_dirs fs fs' _ Hsd). destruct Hsd as [-> Hd].
  destruct (negb (Str.truthy p)); [reflexivity|].
  destruct (negb (path_fits p)); [reflexivity|].
  destruct (walk fs _ _) as [d|]; [|reflexivity].
  destruct (classify _); [now rewrite Hd | reflexivity | reflexivity | reflexivity].
Qed.

Lemma user_dir_settled (fs : t) (u : string) (d : list string) :
  Path.join DATA_ROOT u <> "" ->
  path_fits (Path.join DATA_ROOT u) = true ->
  walk fs (start fs (Path.join DATA_ROOT u)) (components (Path.join DATA_ROOT u)) = Some d ->
  user_dir fs u = (fs, Some (Path.join DATA_ROOT u)).
Proof.
  intros Hp Hfit Hw. unfold user_dir. now rewrite (walk_makedirs _ _ _ Hp Hfit Hw).
Qed.

(** Where the user's directory has been made, it is there for the next
    handler, in every file system with the same directories. *)
Lemma user_dir_after (fs fs1 fs' : t) (u : string) (d : list string) :
  makedirs fs (Path.join DATA_ROOT u) = (fs1, Some d) -> same_dirs fs1 fs' ->
  user_dir fs' u = (fs', Some (Path.join DATA_ROOT u)).
Proof.
  intros Hm Hsd. pose proof (makedirs_fits _ _ _ _ Hm) as Hfit.
  apply makedirs_inv in Hm as (Hp & _ & Hw).
  apply (user_dir_settled fs' u d Hp Hfit).
  rewrite (walk_same_dirs fs1 fs' _ Hsd). unfold start in *.
  destruct Hsd as [-> _]. exact Hw.
Qed.

(** X12. Upload and download: after an upload answered 200, a download by
    the same user under the same file name answers with exactly the bytes
    of the upload's body, and changes nothing -- whatever the name looks
    like. *)
Theorem upload_then_download (now : Z) (u : string) (file : UploadFile)
    (fs fs' : t) (h h' : Hub.t) (name : string) :
  api_upload now (Some u) file fs h = ((fs', h'), UpOk name) ->
  api_download (filename file) (Some u) fs'
  = (fs', DlFile (filename file) (body file)).
Proof.
  intros E.
  destruct (api_upload_ok_inv _ _ _ _ _ _ _ _ E)
    as (u' & fs1 & d & fs3 & q & [= <-] & Hu & -> & He & Hm & Ho & -> & _).
  destruct (api_upload_ok_fs now u file fs1 fs3 h _ _ Ho) as (Hsd & _ & [m Hq]).
  set (fs4 := (upload_loop MAX_UPLOAD_CHUNK u q now (body file) 0 fs3 h).1.1) in *.
  apply open_wb_inv in Ho as (Hl & Hne & _).
  unfold api_download.
  assert (Ht : Str.truthy u = true) by (destruct u; [contradiction | reflexivity]).
  rewrite Ht. cbn [negb]. rewrite (user_dir_after _ _ fs4 _ _ Hm Hsd).
  unfold isfile, Os.read_file. rewrite (locate_same_dirs fs1 fs4 _ Hsd), Hl.
  cbn [mbind option_bind]. unfold isfile_at, content_at, node_at.
  destruct q as [|x q]; [contradiction|]. now rewrite Hq.
Qed.

Lemma remove_error_unchanged (fs fs' : t) (p : string) (e : Os.error) :
  Os.remove fs p = (fs', Some e) -> fs' = fs.
Proof.
  unfold Os.remove. destruct (Str.contains_char NUL p); [now intros [= <- _]|].
  destruct (negb (Str.truthy p)); [now intros [= <- _]|].
  destruct (negb (path_fits p)); [now intros [= <- _]|].
  destruct (Os.walk fs _ _) as [e0|d]; [now intros [= <- _]|].
  destruct (classify _) as [| |name|];
    [now intros [= <- _] | now intros [= <- _] | | now intros [= <- _]].
  destruct (node_at fs (d ++ [name])) as [[|c m]|]; [now intros [= <- _] | discriminate | now intros [= <- _]].
Qed.

Lemma remove_ok_inv (fs fs' : t) (p : string) :
  Os.remove fs p = (fs', None) ->
  exists d name c m,
    Str.contains_char NUL p = false
    /\ Str.truthy p = true
    /\ path_fits p = true
    /\ Os.walk fs (start fs p) (removelast (components p)) = inr d
    /\ classify (List.last (components p) "") = Down name
    /\ nodes fs !! (d ++ [name]) = Some (File c m)
    /\ fs' = mk (cwd fs) (delete (d ++ [name]) (nodes fs)).
Proof.
  unfold Os.remove. destruct (Str.contains_char NUL p); [discriminate|].
  destruct (Str.truthy p); cbn [negb]; [|discriminate].
  destruct (path_fits p); cbn [negb]; [|discriminate].
  destruct (Os.walk fs _ _) as [e0|d]; [discriminate|].
  destruct (classify _) as [| |name|]; [discriminate | discriminate | | discriminate].
  destruct (node_at fs (d ++ [name])) as [[|c m]|] eqn:Hn; [discriminate | | discriminate].
  intros [= <-]. exists d, name, c, m. rewrite node_at_snoc in Hn. now repeat split.
Qed.

Lemma remove_same_dirs (fs fs' : t) (p : string) (r : option Os.error) :
  Os.remove fs p = (fs', r) -> same_dirs fs fs'.
Proof.
  destruct r as [e|].
  - intros ->%remove_error_unchanged. apply same_dirs_refl.
  - intros (d & name & c & m & _ & _ & _ & _ & _ & Hn & ->)%remove_ok_inv.
    split; [reflexivity|]. intros q. unfold isdir_at, node_at. cbn [nodes].
    destruct q as [|x q]; [reflexivity|].
    destruct (decide (d ++ [name] = x :: q)) as [E|Hne].
    + rewrite <- E, lookup_delete_eq, Hn. reflexivity.
    + now rewrite lookup_delete_ne.
Qed.

(** Once [os.remove(p)] has gone through or found nothing, [p] names no
    regular file. *)
Lemma remove_then_absent (fs fs' : t) (p : string) (r : option Os.error) :
  Os.remove fs p = (fs', r) -> r = None \/ r = Some Os.ENOENT ->
  isfile fs' p = false /\ Os.remove fs' p = (fs', Some Os.ENOENT).
Proof.
  intros Hr Hcase. destruct Hcase as [->| ->].
  - pose proof (remove_same_dirs _ _ _ _ Hr) as Hsd.
    apply remove_ok_inv in Hr as (d & name & c & m & Hz & Ht & Hfit & Hw & Hc & Hn & Hfs).
    apply os_walk_iff in Hw.
    assert (Hw' : walk fs' (start fs' p) (removelast (components p)) = Some d).
    { rewrite (walk_same_dirs fs fs' _ Hsd). unfold start in *.
      destruct Hsd as [-> _]. exact Hw. }
    assert (Hgone : node_at fs' (d ++ [name]) = None).
    { rewrite node_at_snoc, Hfs. cbn [nodes]. apply lookup_delete_eq. }
    split.
    + unfold isfile, locate. rewrite Ht, Hfit. cbn [negb]. rewrite Hw', Hc.
      unfold isfile_at. now rewrite Hgone.
    + unfold Os.remove. rewrite Hz, Ht, Hfit. cbn [negb].
      apply os_walk_iff in Hw'. now rewrite Hw', Hc, Hgone.
  - pose proof (remove_error_unchanged _ _ _ _ Hr) as ->. split; [|exact Hr].
    revert Hr. unfold Os.remove, isfile, locate.
    destruct (Str.contains_char NUL p); [discriminate|].
    destruct (Str.truthy p); cbn [negb]; [|reflexivity].
    destruct (path_fits p); cbn [negb]; [|reflexivity].
    destruct (Os.walk fs _ _) as [e0|d] eqn:Hw.
    + intros _. destruct (walk fs _ _) as [d|] eqn:Hw'; [|reflexivity].
      apply os_walk_iff in Hw'. congruence.
    + apply os_walk_iff in Hw. rewrite Hw.
      destruct (classify _) as [| |name|].
      * destruct (isdir_at fs d) eqn:Hd; [|discriminate]. discriminate.
      * discriminate.
      * unfold isfile_at.
        destruct (node_at fs (d ++ [name])) as [[|c m]|]; [discriminate | discriminate | reflexivity].
      * discriminate.
Qed.

Lemma api_delete_ok_inv (name : string) (user : option string) (fs fs' : t) (h h' : Hub.t) :
  api_delete name user fs h = ((fs', h'), DelOk) ->
  exists u fs1 d r,
    user = Some u /\ u <> ""
    /\ makedirs fs (Path.join DATA_ROOT u) = (fs1, Some d)
    /\ Os.remove fs1 (Path.join (Path.join DATA_ROOT u) name) = (fs', r)
    /\ (r = None \/ r = Some Os.ENOENT)
    /\ h' = Hub.broadcast u Refresh h.
Proof.
  unfold api_delete. destruct user as [u|]; [|discriminate].
  destruct (Str.truthy u) eqn:Hu; cbn [negb]; [|discriminate].
  destruct (user_dir fs u) as [fs1 [p|]] eqn:Hud; [|discriminate].
  destruct (user_dir_inv _ _ _ _ Hud) as [-> [d Hm]].
  destruct (Os.remove fs1 _) as [fs2 [e|]] eqn:Hr.
  - destruct e; [|discriminate|discriminate|discriminate|discriminate].
    intros [= <- <-]. exists u, fs1, d, (Some Os.ENOENT).
    repeat split; try assumption; [intros ->; discriminate Hu | now right].
  - intros [= <- <-]. exists u, fs1, d, None.
    repeat split; try assumption; [intros ->; discriminate Hu | now left].
Qed.

(** X13. Delete is idempotent: after a delete answered 200, the same delete
    again is answered 200 again, changes no file or directory, and sends
    the refresh event once more; and a download of that name is answered
    404. Removing a file that is not there is one such delete. *)
Theorem api_delete_idempotent (name : string) (user : option string)
    (fs fs' : t) (h h' hx : Hub.t) :
  api_delete name user fs h = ((fs', h'), DelOk) ->
  exists u,
    user = Some u
    /\ api_delete name user fs' hx = ((fs', Hub.broadcast u Refresh hx), DelOk)
    /\ api_download name user fs' = (fs', DlNotFound).
Proof.
  intros E.
  destruct (api_delete_ok_inv _ _ _ _ _ _ E) as (u & fs1 & d & r & -> & Hu & Hm & Hr & Hcase & _).
  exists u. split; [reflexivity|].
  pose proof (remove_same_dirs _ _ _ _ Hr) as Hsd.
  destruct (remove_then_absent _ _ _ _ Hr Hcase) as [Hnf Hagain].
  assert (Ht : Str.truthy u = true) by (destruct u; [contradiction | reflexivity]).
  split.
  - unfold api_delete. rewrite Ht. cbn [negb].
    rewrite (user_dir_after _ _ fs' _ _ Hm Hsd), Hagain. reflexivity.
  - unfold api_download. rewrite Ht. cbn [negb].
    rewrite (user_dir_after _ _ fs' _ _ Hm Hsd), Hnf. reflexivity.
Qed.

(** X14. A delete never checks the name's components either: the only file
    whose content it changes is the one that
    [os.path.join(user_dir(user), name)] names, which it removes; for a name
    without a separator that is the file of that name in the user's own
    directory. *)
Theorem api_delete_changes_only_joined_path (name : string) (user : option string)
    (fs : t) (h : Hub.t) (p : list string) :
  content_at (api_delete name user fs h).1.1 p <> content_at fs p ->
  exists u fs1 d,
    user = Some u
    /\ makedirs fs (Path.join DATA_ROOT u) = (fs1, Some d)
    /\ locate fs1 (Path.join (Path.join DATA_ROOT u) name) = Some p
    /\ content_at (api_delete name user fs h).1.1 p = None
    /\ (plain_name name -> p = d ++ [name] /\ inside d p).
Proof.
  intros Hp. unfold api_delete in *. destruct user as [u|]; [|now destruct Hp].
  destruct (Str.truthy u) eqn:Hu; cbn [negb] in *; [|now destruct Hp].
  destruct (user_dir fs u) as [fs1 [dir|]] eqn:Hud.
  2:{ exfalso. apply Hp. cbn [fst]. apply grows_content.
      eapply user_dir_grows; exact Hud. }
  destruct (user_dir_inv _ _ _ _ Hud) as [-> [d Hm]].
  pose proof (makedirs_grows _ _ _ _ Hm) as Hg.
  destruct (Os.remove fs1 _) as [fs2 r] eqn:Hr.
  assert (Hfs : content_at fs2 p <> content_at fs p).
  { destruct r as [[| | | |]|]; exact Hp. }
  clear Hp. destruct r as [e|].
  { exfalso. apply Hfs. rewrite (remove_error_unchanged _ _ _ _ Hr).
    now apply grows_content. }
  exists u, fs1, d. split; [reflexivity|]. split; [exact Hm|].
  apply remove_ok_inv in Hr as (dq & nm & c & m & _ & Ht & Hfit & Hw & Hc & Hn & ->).
  apply os_walk_iff in Hw.
  assert (Hq : p = dq ++ [nm]).
  { destruct (decide (p = dq ++ [nm])) as [|Hne]; [assumption|].
    exfalso. apply Hfs. rewrite <- (grows_content fs fs1 p Hg).
    unfold content_at, node_at. destruct p as [|x p]; [reflexivity|].
    cbn [nodes]. now rewrite lookup_delete_ne by congruence. }
  assert (Hloc : locate fs1 (Path.join (Path.join DATA_ROOT u) name) = Some p).
  { unfold locate. rewrite Ht, Hfit. cbn [negb]. now rewrite Hw, Hc, Hq. }
  split; [exact Hloc|]. split.
  - cbn [fst]. rewrite Hq. unfold content_at. rewrite node_at_snoc. cbn [nodes].
    now rewrite lookup_delete_eq.
  - intros Hf.
    assert (Hname : classify name = Down name).
    { pose proof (makedirs_inv _ _ _ _ Hm) as (Hpne & _ & _).
      destruct (components_join _ name Hpne Hf) as (cs & Hj & _ & _).
      rewrite Hj, last_last in Hc. unfold classify in Hc |- *.
      destruct (String.eqb name ""); [discriminate|].
      destruct (String.eqb name "."); [discriminate|].
      destruct (String.eqb name ".."); [discriminate|].
      destruct (name_ok name); [reflexivity | discriminate]. }
    pose proof (makedirs_inv _ _ _ _ Hm) as (Hpne & _ & Hwd).
    rewrite (locate_join fs1 _ name d Hpne Hf Hname Hfit Hwd) in Hloc.
    injection Hloc as <-. split; [reflexivity|].
    exists [name]. split; [discriminate | reflexivity].
Qed.

End FilesMore.

(** ** The listing *)

Section ListingMore.
Import Fs FsFacts.

#[local] Instance str_le_total : Total str_le.
Proof.
  intros a b. unfold str_le.
  destruct (String.leb_total a b) as [E|E]; rewrite E; [left | right]; exact I.
Qed.

#[local] Instance str_le_trans : Transitive str_le.
Proof.
  intros a b c. unfold str_le, String.leb.
  destruct (String.compare a b) eqn:Eab; [| |contradiction]; intros _;
    destruct (String.compare b c) eqn:Ebc; [| |contradiction| | |contradiction]; intros _.
  - apply OrderedTypeEx.String_as_OT.cmp_eq in Eab as ->. now rewrite Ebc.
  - apply OrderedTypeEx.String_as_OT.cmp_eq in Eab as ->. now rewrite Ebc.
  - apply OrderedTypeEx.String_as_OT.cmp_eq in Ebc as <-. now rewrite Eab.
  - apply OrderedTypeEx.String_as_OT.cmp_lt in Eab, Ebc.
    pose proof (OrderedTypeEx.String_as_OT.lt_trans _ _ _ Eab Ebc) as Hac.
    apply OrderedTypeEx.String_as_OT.cmp_lt in Hac.
    unfold OrderedTypeEx.String_as_OT.cmp in Hac. now rewrite Hac.
Qed.

Lemma list_entry_name (fs : t) (p name : string) (e : file_entry) :
  list_entry fs p name = Some e -> fe_name e = name.
Proof.
  unfold list_entry. destruct (isfile fs _); [|discriminate].
  destruct (stat fs _) as [[sz m]|]; [|discriminate]. now intros [= <-].
Qed.

Lemma list_entry_inv (fs : t) (p name : string) (e : file_entry) :
  list_entry fs p name = Some e ->
  isfile fs (Path.join p name) = true
  /\ exists q c,
       locate fs (Path.join p name) = Some q
       /\ node_at fs q = Some (File c (fe_mtime e))
       /\ fe_size e = Z.of_nat (length c).
Proof.
  unfold list_entry. destruct (isfile fs _); [|discriminate].
  unfold stat. destruct (locate fs _) as [q|]; [|discriminate].
  destruct (node_at fs q) as [[|c m]|] eqn:Hn; [discriminate | | discriminate].
  intros [= <-]. split; [reflexivity|]. exists q, c. cbn [fe_mtime fe_size].
  split; [reflexivity|]. split; [exact Hn | reflexivity].
Qed.

Lemma entries_sorted (fs : t) (p : string) (names : list string) :
  StronglySorted str_le names ->
  StronglySorted str_le (fe_name <$> omap (list_entry fs p) names).
Proof.
  induction 1 as [|n names Hs IH Hall]; cbn [omap fmap list_omap]; [constructor|].
  destruct (list_entry fs p n) as [e|] eqn:He; [|exact IH].
  rewrite fmap_cons. constructor; [exact IH|].
  rewrite (list_entry_name _ _ _ _ He).
  apply Forall_forall. intros x Hx.
  apply list_elem_of_fmap in Hx as (e' & -> & He').
  apply list_elem_of_omap in He' as (n' & Hn' & He'').
  rewrite (list_entry_name _ _ _ _ He'').
  rewrite Forall_forall in Hall. now apply Hall.
Qed.

Lemma api_files_ok_inv (user : option string) (fs fs' : t) (files : list file_entry) :
  api_files user fs = (fs', FilesOk files) ->
  exists u d names,
    user = Some u /\ u <> ""
    /\ makedirs fs (Path.join DATA_ROOT u) = (fs', Some d)
    /\ listdir fs' (Path.join DATA_ROOT u) = Some names
    /\ files = omap (list_entry fs' (Path.join DATA_ROOT u)) (merge_sort str_le names).
Proof.
  unfold api_files. destruct user as [u|]; [|discriminate].
  destruct (Str.truthy u) eqn:Hu; cbn [negb]; [|discriminate].
  unfold list_user_files.
  destruct (user_dir fs u) as [fs1 [p|]] eqn:Hud; [|discriminate].
  destruct (user_dir_inv _ _ _ _ Hud) as [-> [d Hm]].
  destruct (listdir fs1 _) as [names|] eqn:Hl; [|discriminate].
  intros [= <- <-]. exists u, d, names.
  repeat split; try assumption; try reflexivity. intros ->. discriminate Hu.
Qed.

(** X15. The listing: a listing answered 200 has created directories at
    most (no file's content and no existing node changes), its names are in
    ascending order of code points, and every entry is a regular file that
    [os.path.join(user_dir(user), name)] names, with the size and the
    modification time that file has. *)
Theorem api_files_sorted_entries (user : option string) (fs fs' : t)
    (files : list file_entry) :
  api_files user fs = (fs', FilesOk files) ->
  exists u,
    user = Some u
    /\ grows fs fs'
    /\ StronglySorted str_le (fe_name <$> files)
    /\ forall e, e ∈ files ->
         exists q c,
           locate fs' (Path.join (Path.join DATA_ROOT u) (fe_name e)) = Some q
           /\ node_at fs' q = Some (File c (fe_mtime e))
           /\ fe_size e = Z.of_nat (length c).
Proof.
  intros (u & d & names & -> & _ & Hm & _ & ->)%api_files_ok_inv.
  exists u. split; [reflexivity|]. split; [eapply makedirs_grows; exact Hm|].
  split.
  - apply entries_sorted, StronglySorted_merge_sort; typeclasses eauto.
  - intros e (n & _ & He)%list_elem_of_omap.
    rewrite (list_entry_name _ _ _ _ He).
    apply list_entry_inv in He as (_ & q & c & H1 & H2 & H3). now exists q, c.
Qed.

(** X16. Delete and the listing: after a delete answered 200, no listing of
    that user's holds the deleted name; and on a file system where every
    node lies in a directory, the listing is answered 200. *)
Theorem api_delete_then_not_listed (name : string) (user : option string)
    (fs fs' : t) (h h' : Hub.t) :
  api_delete name user fs h = ((fs', h'), DelOk) ->
  (forall files, (api_files user fs').2 = FilesOk files -> name ∉ fe_name <$> files)
  /\ (wf fs -> exists files, api_files user fs' = (fs', FilesOk files)).
Proof.
  intros E.
  destruct (api_delete_ok_inv _ _ _ _ _ _ E) as (u & fs1 & d & r & -> & Hu & Hm & Hr & Hcase & _).
  pose proof (remove_same_dirs _ _ _ _ Hr) as Hsd.
  destruct (remove_then_absent _ _ _ _ Hr Hcase) as [Hnf _].
  assert (Ht : Str.truthy u = true) by (destruct u; [contradiction | reflexivity]).
  pose proof (user_dir_after _ _ fs' _ _ Hm Hsd) as Hud.
  split.
  - intros files. unfold api_files, list_user_files. rewrite Ht, Hud. cbn [negb].
    destruct (listdir fs' _) as [names|]; [|discriminate].
    intros [= <-] (e & Hn & He)%list_elem_of_fmap.
    apply list_elem_of_omap in He as (n & _ & He).
    pose proof (list_entry_name _ _ _ _ He) as Hen.
    apply list_entry_inv in He as [Hf _]. rewrite <- Hen, <- Hn, Hnf in Hf. discriminate.
  - intros Hwf. unfold api_files, list_user_files. rewrite Ht, Hud. cbn [negb].
    destruct (makedirs_wf _ _ _ _ Hwf Hm) as [_ Hd].
    pose proof (makedirs_fits _ _ _ _ Hm) as Hfit.
    apply makedirs_inv in Hm as (Hp & _ & Hw).
    assert (Hw' : walk fs' (start fs' (Path.join DATA_ROOT u))
                    (components (Path.join DATA_ROOT u)) = Some d).
    { rewrite (walk_same_dirs fs1 fs' _ Hsd). unfold start in *.
      destruct Hsd as [-> _]. exact Hw. }
    assert (Hd' : isdir_at fs' d = true) by (destruct Hsd as [_ ->]; exact Hd).
    unfold listdir. rewrite (locate_walked fs' _ d Hp Hfit Hw' Hd'), Hd'.
    eexists. reflexivity.
Qed.

End ListingMore.

(** ** What a download reads *)

Section DownloadMore.
Import Fs FsFacts.

(** X17. A download answered 200 sends, under the name asked for, the bytes
    of the regular file that [os.path.join(user_dir(user), name)] names,
    wherever that lies: the name's components are not checked. It changes no
    file's content; and for a name without a separator, on a file system
    where every node lies in a directory, the file is the one of that name
    in the user's own directory. *)
Theorem api_download_reads_joined_path (name : string) (user : option string)
    (fs fs' : t) (n : string) (c : list byte) :
  api_download name user fs = (fs', DlFile n c) ->
  exists u d q,
    user = Some u /\ n = name
    /\ makedirs fs (Path.join DATA_ROOT u) = (fs', Some d)
    /\ locate fs' (Path.join (Path.join DATA_ROOT u) name) = Some q
    /\ content_at fs' q = Some c
    /\ (forall p, content_at fs' p = content_at fs p)
    /\ (plain_name name -> wf fs -> q = d ++ [name] /\ inside d q).
Proof.
  unfold api_download. destruct user as [u|]; [|discriminate].
  destruct (Str.truthy u); cbn [negb]; [|discriminate].
  destruct (user_dir fs u) as [fs1 [dir|]] eqn:Hud; [|discriminate].
  destruct (user_dir_inv _ _ _ _ Hud) as [-> [d Hm]].
  destruct (isfile fs1 _) eqn:Hf; cbn [negb]; [|discriminate].
  unfold Os.read_file.
  destruct (locate fs1 _) as [q|] eqn:Hl; cbn [mbind option_bind]; [|discriminate].
  destruct (content_at fs1 q) as [c'|] eqn:Hc; [|discriminate].
  intros [= <- <- <-]. exists u, d, q.
  split; [reflexivity|]. split; [reflexivity|]. split; [exact Hm|].
  split; [exact Hl|]. split; [exact Hc|]. split.
  - intros p. apply grows_content. eapply makedirs_grows; exact Hm.
  - intros Hplain Hwf.
    destruct (makedirs_wf _ _ _ _ Hwf Hm) as [Hwf1 Hd].
    pose proof (makedirs_inv _ _ _ _ Hm) as (Hp & _ & Hw).
    pose proof (locate_fits _ _ _ Hl) as Hfit.
    assert (Hname : classify name = Down name).
    { unfold isfile in Hf. rewrite Hl in Hf. revert Hl. unfold locate.
      destruct (negb (Str.truthy _)); [discriminate|].
      rewrite Hfit. cbn [negb].
      destruct (components_join _ name Hp Hplain) as (cs & Hj & Hcs & Hs).
      rewrite Hj, removelast_last, last_last.
      assert (Hw' : walk fs1 (start fs1 (Path.join (Path.join DATA_ROOT u) name)) cs = Some d).
      { unfold start in *. rewrite Hs. destruct Hcs as [E|E]; rewrite E in Hw.
        - exact Hw.
        - rewrite walk_app in Hw.
          destruct (walk fs1 _ cs) as [d0|]; [|discriminate]. exact Hw. }
      rewrite Hw'. unfold classify.
      destruct (String.eqb name "").
      { rewrite Hd. intros [= <-]. unfold isfile_at, isdir_at in *.
        destruct (node_at fs1 d) as [[|]|]; discriminate. }
      destruct (String.eqb name ".").
      { rewrite Hd. intros [= <-]. unfold isfile_at, isdir_at in *.
        destruct (node_at fs1 d) as [[|]|]; discriminate. }
      destruct (String.eqb name "..").
      { intros [= <-]. pose proof (wf_parent _ _ Hwf1 Hd) as Hpd.
        unfold isfile_at, isdir_at in *.
        destruct (node_at fs1 (parent d)) as [[|]|]; discriminate. }
      destruct (name_ok name); [reflexivity | discriminate]. }
    rewrite (locate_join fs1 _ name d Hp Hplain Hname Hfit Hw) in Hl.
    injection Hl as <-. split; [reflexivity|].
    exists [name]. split; [discriminate | reflexivity].
Qed.

End DownloadMore.

(** ** The further properties on concrete requests *)

(** Alice registers as [" alice "] and logs in with the same body. *)
Lemma register_then_login_witness :
  created (@api_register utc_server 1000 "s1" "10.0.0.5" (Some " alice ") (Some "pw1")
             init_db fs0).2 = true
  /\ @pbkdf2_sha256_verify sample_check (or_empty (Some "pw1"))
       (@pbkdf2_sha256_hash utc_server "s1" (or_empty (Some "pw1"))) = true
  /\ @api_login utc_server sample_check 2000 (Some " alice ") (Some "pw1")
       (@api_register utc_server 1000 "s1" "10.0.0.5" (Some " alice ") (Some "pw1")
          init_db fs0).1.1
     = ((@api_register utc_server 1000 "s1" "10.0.0.5" (Some " alice ") (Some "pw1")
           init_db fs0).1.1,
        LoginOk (@create_jwt utc_server 2000 (Str.strip (or_empty (Some " alice "))))).
Proof.
  assert (H1 : created (@api_register utc_server 1000 "s1" "10.0.0.5" (Some " alice ")
                          (Some "pw1") init_db fs0).2 = true)
    by (vm_compute; reflexivity).
  assert (H2 : @pbkdf2_sha256_verify sample_check (or_empty (Some "pw1"))
                 (@pbkdf2_sha256_hash utc_server "s1" (or_empty (Some "pw1"))) = true)
    by (vm_compute; reflexivity).
  split; [exact H1|]. split; [exact H2|].
  exact (@register_then_login utc_server sample_check 1000 2000 "s1" "10.0.0.5"
           (Some " alice ") (Some "pw1") init_db fs0 H1 H2).
Defined.

Example login_wrong_password :
  (@api_login utc_server sample_check 2000 (Some "alice") (Some "pw2")
     (@api_register utc_server 1000 "s1" "10.0.0.5" (Some " alice ") (Some "pw1")
        init_db fs0).1.1).2
  = LoginFailed.
Proof. vm_compute. reflexivity. Qed.

Lemma upload_zip_ok :
  api_upload 100 (Some "alice") zip3 fs0 hub1
  = ((fs_zip, (api_upload 100 (Some "alice") zip3 fs0 hub1).1.2), UpOk "a.zip").
Proof.
  assert (R : (api_upload 100 (Some "alice") zip3 fs0 hub1).2 = UpOk "a.zip")
    by (vm_compute; reflexivity).
  rewrite <- R. unfold fs_zip. apply pair_eta3.
Qed.

Lemma upload_then_download_witness :
  api_upload 100 (Some "alice") zip3 fs0 hub1
  = ((fs_zip, (api_upload 100 (Some "alice") zip3 fs0 hub1).1.2), UpOk "a.zip")
  /\ api_download (filename zip3) (Some "alice") fs_zip
     = (fs_zip, DlFile (filename zip3) (body zip3)).
Proof.
  split; [exact upload_zip_ok|].
  exact (upload_then_download 100 "alice" zip3 fs0 fs_zip hub1 _ "a.zip" upload_zip_ok).
Defined.

Lemma delete_zip_ok :
  api_delete "a.zip" (Some "alice") fs_two hub1
  = (((api_delete "a.zip" (Some "alice") fs_two hub1).1.1,
      (api_delete "a.zip" (Some "alice") fs_two hub1).1.2), DelOk).
Proof.
  assert (R : (api_delete "a.zip" (Some "alice") fs_two hub1).2 = DelOk)
    by (vm_compute; reflexivity).
  rewrite <- R. apply pair_eta3.
Qed.

Lemma api_delete_idempotent_witness :
  api_delete "a.zip" (Some "alice") fs_two hub1
  = (((api_delete "a.zip" (Some "alice") fs_two hub1).1.1,
      (api_delete "a.zip" (Some "alice") fs_two hub1).1.2), DelOk)
  /\ exists u,
       Some "alice" = Some u
       /\ api_delete "a.zip" (Some "alice")
            (api_delete "a.zip" (Some "alice") fs_two hub1).1.1 hub1
          = (((api_delete "a.zip" (Some "alice") fs_two hub1).1.1,
              Hub.broadcast u Refresh hub1), DelOk)
       /\ api_download "a.zip" (Some "alice")
            (api_delete "a.zip" (Some "alice") fs_two hub1).1.1
          = ((api_delete "a.zip" (Some "alice") fs_two hub1).1.1, DlNotFound).
Proof.
  split; [exact delete_zip_ok|].
  exact (api_delete_idempotent "a.zip" (Some "alice") fs_two _ hub1 _ hub1 delete_zip_ok).
Defined.

(** A delete of a name that is not there is answered 200 as well, and
    still sends the refresh event. *)
Example delete_missing_ok :
  (api_delete "none.zip" (Some "alice") fs_zip hub1).2 = DelOk
  /\ Fs.content_at (api_delete "none.zip" (Some "alice") fs_zip hub1).1.1
       (alice_dir ++ ["a.zip"]) = Some [x01; x02; x03]
  /\ Hub.sent (api_delete "none.zip" (Some "alice") fs_zip hub1).1.2 = [("alice", Refresh)].
Proof. vm_compute. split; [reflexivity|]. split; reflexivity. Qed.

(** A delete of a name that is not there and is too long is answered 500:
    the error is not [FileNotFoundError]. So is one of a name with NUL. *)
Example delete_long_name_error :
  (api_delete (times "a" 256) (Some "alice") fs_zip hub1).2 = DelError
  /\ (api_delete (times "a" 255) (Some "alice") fs_zip hub1).2 = DelOk
  /\ (api_delete (String Fs.NUL "a.zip") (Some "alice") fs_zip hub1).2 = DelError.
Proof. vm_compute. split; [reflexivity|]. split; reflexivity. Qed.

(** The directory of a user whose name has 256 bytes cannot be made, nor
    one whose path has 4096 bytes or more. *)
Example user_dir_long_name :
  (user_dir fs0 (times "u" 256)).2 = None
  /\ (user_dir fs0 (times "u" 255)).2 = Some ("data/" +:+ times "u" 255)
  /\ Fs.nbytes ("data/" +:+ times "./" 2045 +:+ "u") = 4096%N
  /\ (user_dir fs0 (times "./" 2045 +:+ "u")).2 = None
  /\ Fs.nbytes ("data/" +:+ times "./" 2044 +:+ "uu") = 4095%N
  /\ (user_dir fs0 (times "./" 2044 +:+ "uu")).2
     = Some ("data/" +:+ times "./" 2044 +:+ "uu").
Proof.
  split; [vm_compute; reflexivity|]. split; [vm_compute; reflexivity|].
  split; [vm_compute; reflexivity|]. split; [vm_compute; reflexivity|].
  split; vm_compute; reflexivity.
Qed.

(** A path of 4096 bytes names nothing: the download is answered 404 and the
    delete 500, though the path leads to alice's file. With one byte less
    the file is found. *)
Example long_path_names_nothing :
  Fs.nbytes ("data/alice/" +:+ times "./" 2040 +:+ "a.zip") = 4096%N
  /\ (api_download (times "./" 2040 +:+ "a.zip") (Some "alice") fs_zip).2 = DlNotFound
  /\ (api_delete (times "./" 2040 +:+ "a.zip") (Some "alice") fs_zip hub1).2 = DelError
  /\ Fs.nbytes ("data/alice/" +:+ times "./" 2039 +:+ "/a.zip") = 4095%N
  /\ Fs.content_at
       (api_delete (times "./" 2039 +:+ "/a.zip") (Some "alice") fs_zip hub1).1.1
       (alice_dir ++ ["a.zip"]) = None.
Proof.
  split; [vm_compute; reflexivity|]. split; [vm_compute; reflexivity|].
  split; [vm_compute; reflexivity|]. split; vm_compute; reflexivity.
Qed.

(** A delete with a name that climbs out of the user's directory removes
    the file it reaches. *)
Example delete_traversal_escapes :
  (api_delete "../alice/a.zip" (Some "bob") fs_zip hub1).2 = DelOk
  /\ Fs.content_at fs_zip (alice_dir ++ ["a.zip"]) = Some [x01; x02; x03]
  /\ Fs.content_at (api_delete "../alice/a.zip" (Some "bob") fs_zip hub1).1.1
       (alice_dir ++ ["a.zip"]) = None.
Proof. vm_compute. split; [reflexivity|]. split; reflexivity. Qed.

Lemma api_delete_changes_only_joined_path_witness :
  Fs.content_at (api_delete "a.zip" (Some "alice") fs_two hub1).1.1 (alice_dir ++ ["a.zip"])
  <> Fs.content_at fs_two (alice_dir ++ ["a.zip"])
  /\ exists u fs1 d,
       Some "alice" = Some u
       /\ Fs.makedirs fs_two (Path.join DATA_ROOT u) = (fs1, Some d)
       /\ Fs.locate fs1 (Path.join (Path.join DATA_ROOT u) "a.zip")
          = Some (alice_dir ++ ["a.zip"])
       /\ Fs.content_at (api_delete "a.zip" (Some "alice") fs_two hub1).1.1
            (alice_dir ++ ["a.zip"]) = None
       /\ (plain_name "a.zip" ->
           alice_dir ++ ["a.zip"] = d ++ ["a.zip"] /\ Fs.inside d (alice_dir ++ ["a.zip"])).
Proof.
  assert (Hc : Fs.content_at (api_delete "a.zip" (Some "alice") fs_two hub1).1.1
                 (alice_dir ++ ["a.zip"])
               <> Fs.content_at fs_two (alice_dir ++ ["a.zip"])).
  { vm_compute. discriminate. }
  split; [exact Hc|].
  exact (api_delete_changes_only_joined_path "a.zip" (Some "alice") fs_two hub1
           (alice_dir ++ ["a.zip"]) Hc).
Defined.

Lemma files_two_ok :
  api_files (Some "alice") fs_two
  = ((api_files (Some "alice") fs_two).1,
     FilesOk [mk_entry "a.zip" 3 100; mk_entry "b.rar" 1 200]).
Proof.
  assert (R : (api_files (Some "alice") fs_two).2
              = FilesOk [mk_entry "a.zip" 3 100; mk_entry "b.rar" 1 200])
    by (vm_compute; reflexivity).
  rewrite <- R. apply surjective_pairing.
Qed.

Lemma api_files_sorted_entries_witness :
  api_files (Some "alice") fs_two
  = ((api_files (Some "alice") fs_two).1,
     FilesOk [mk_entry "a.zip" 3 100; mk_entry "b.rar" 1 200])
  /\ exists u,
       Some "alice" = Some u
       /\ Fs.grows fs_two (api_files (Some "alice") fs_two).1
       /\ StronglySorted str_le
            (fe_name <$> [mk_entry "a.zip" 3 100; mk_entry "b.rar" 1 200])
       /\ forall e, e ∈ [mk_entry "a.zip" 3 100; mk_entry "b.rar" 1 200] ->
            exists q c,
              Fs.locate (api_files (Some "alice") fs_two).1
                (Path.join (Path.join DATA_ROOT u) (fe_name e)) = Some q
              /\ Fs.node_at (api_files (Some "alice") fs_two).1 q
                 = Some (Fs.File c (fe_mtime e))
              /\ fe_size e = Z.of_nat (length c).
Proof.
  split; [exact files_two_ok|].
  exact (api_files_sorted_entries (Some "alice") fs_two _ _ files_two_ok).
Defined.

Lemma api_delete_then_not_listed_witness :
  api_delete "a.zip" (Some "alice") fs_two hub1
  = (((api_delete "a.zip" (Some "alice") fs_two hub1).1.1,
      (api_delete "a.zip" (Some "alice") fs_two hub1).1.2), DelOk)
  /\ (forall files,
        (api_files (Some "alice") (api_delete "a.zip" (Some "alice") fs_two hub1).1.1).2
        = FilesOk files -> "a.zip" ∉ fe_name <$> files)
  /\ (Fs.wf fs_two ->
      exists files,
        api_files (Some "alice") (api_delete "a.zip" (Some "alice") fs_two hub1).1.1
        = ((api_delete "a.zip" (Some "alice") fs_two hub1).1.1, FilesOk files)).
Proof.
  split; [exact delete_zip_ok|].
  exact (api_delete_then_not_listed "a.zip" (Some "alice") fs_two _ hub1 _ delete_zip_ok).
Defined.

(** What is listed once [a.zip] is gone. *)
Example files_after_delete :
  (api_files (Some "alice") (api_delete "a.zip" (Some "alice") fs_two hub1).1.1).2
  = FilesOk [mk_entry "b.rar" 1 200].
Proof. vm_compute. reflexivity. Qed.

Lemma download_zip_ok :
  api_download "a.zip" (Some "alice") fs_zip
  = ((api_download "a.zip" (Some "alice") fs_zip).1, DlFile "a.zip" [x01; x02; x03]).
Proof.
  assert (R : (api_download "a.zip" (Some "alice") fs_zip).2
              = DlFile "a.zip" [x01; x02; x03]) by (vm_compute; reflexivity).
  rewrite <- R. apply surjective_pairing.
Qed.

Lemma api_download_reads_joined_path_witness :
  api_download "a.zip" (Some "alice") fs_zip
  = ((api_download "a.zip" (Some "alice") fs_zip).1, DlFile "a.zip" [x01; x02; x03])
  /\ exists u d q,
       Some "alice" = Some u /\ "a.zip" = "a.zip"
       /\ Fs.makedirs fs_zip (Path.join DATA_ROOT u)
          = ((api_download "a.zip" (Some "alice") fs_zip).1, Some d)
       /\ Fs.locate (api_download "a.zip" (Some "alice") fs_zip).1
            (Path.join (Path.join DATA_ROOT u) "a.zip") = Some q
       /\ Fs.content_at (api_download "a.zip" (Some "alice") fs_zip).1 q
          = Some [x01; x02; x03]
       /\ (forall p, Fs.content_at (api_download "a.zip" (Some "alice") fs_zip).1 p
                     = Fs.content_at fs_zip p)
       /\ (plain_name "a.zip" -> Fs.wf fs_zip -> q = d ++ ["a.zip"] /\ Fs.inside d q).
Proof.
  split; [exact download_zip_ok|].
  exact (api_download_reads_joined_path "a.zip" (Some "alice") fs_zip _ _ _ download_zip_ok).
Defined.

(** A download with a name that climbs out of the user's directory sends
    another user's file. *)
Example download_traversal_reads_other_user :
  (api_download "../alice/a.zip" (Some "bob") fs_zip).2
  = DlFile "../alice/a.zip" [x01; x02; x03].
Proof. vm_compute. reflexivity. Qed.
